(** * goini: an INI document, its parser and its writer

    A shallow embedding of [goini.go].  Go strings are byte strings and
    are modelled by [string]; Go maps are modelled by stdpp's [gmap], and
    the order of [range] over a map by a [MapOrder]; a slice is modelled
    by the list of its elements.  The methods of [*INI] and [*iniOptions],
    which mutate their receiver, become functions that return the new
    receiver next to the Go result, in an [option] where the method can
    panic. *)

From Stdlib Require Import ZArith Ascii DecimalString DecimalZ DecimalPos.
From stdpp Require Import gmap strings list fin_maps sorting.

Local Open Scope Z_scope.

(** ** Strings *)

Module Text.

(** [len(s) == 0] *)
Definition is_empty (s : string) : bool :=
  match s with "" => true | String _ _ => false end.

(** [strings.TrimSpace] takes off the leading and the trailing white
    space "as defined by Unicode": reading UTF-8 from the left, and then
    from the right, it drops the runes for which [unicode.IsSpace] holds.
    A rune is dropped exactly when its bytes are the UTF-8 encoding of a
    code point with the White_Space property; other bytes, ill-formed
    ones too, stop the trimming.  The encodings have one, two or three
    bytes. *)

(** U+0009 to U+000D and U+0020. *)
Definition space1 (c : ascii) : bool :=
  match c with
  | "009" | "010" | "011" | "012" | "013" | " " => true
  | _ => false
  end%char.

(** U+0085 and U+00A0: C2 85 and C2 A0. *)
Definition space2 (c1 c2 : ascii) : bool :=
  Ascii.eqb c1 "194" && (Ascii.eqb c2 "133" || Ascii.eqb c2 "160").

(** U+1680: E1 9A 80.  U+2000 to U+200A, U+2028, U+2029 and U+202F:
    E2 80 and a byte from 80 to 8A, A8, A9 or AF.  U+205F: E2 81 9F.
    U+3000: E3 80 80. *)
Definition space3 (c1 c2 c3 : ascii) : bool :=
  (Ascii.eqb c1 "225" && Ascii.eqb c2 "154" && Ascii.eqb c3 "128")
  || (Ascii.eqb c1 "226" && Ascii.eqb c2 "128"
      && ((N.leb 128 (N_of_ascii c3) && N.leb (N_of_ascii c3) 138)
          || Ascii.eqb c3 "168" || Ascii.eqb c3 "169" || Ascii.eqb c3 "175"))
  || (Ascii.eqb c1 "226" && Ascii.eqb c2 "129" && Ascii.eqb c3 "159")
  || (Ascii.eqb c1 "227" && Ascii.eqb c2 "128" && Ascii.eqb c3 "128").

(** Drops from the front of [s] the runs of one, two and three bytes that
    [sp1], [sp2] and [sp3] accept. *)
Fixpoint trim (sp1 : ascii -> bool) (sp2 : ascii -> ascii -> bool)
    (sp3 : ascii -> ascii -> ascii -> bool) (s : string) : string :=
  match s with
  | "" => ""
  | String c1 s1 =>
      if sp1 c1 then trim sp1 sp2 sp3 s1
      else match s1 with
           | "" => s
           | String c2 s2 =>
               if sp2 c1 c2 then trim sp1 sp2 sp3 s2
               else match s2 with
                    | "" => s
                    | String c3 s3 =>
                        if sp3 c1 c2 c3 then trim sp1 sp2 sp3 s3 else s
                    end
           end
  end.

Fixpoint rev_append (s acc : string) : string :=
  match s with
  | "" => acc
  | String c s' => rev_append s' (String c acc)
  end.

(** The bytes of [s] from the last to the first. *)
Definition rev (s : string) : string := rev_append s "".

Definition TrimLeft (s : string) : string := trim space1 space2 space3 s.

(** The same from the end: on the reversed string the bytes of a rune
    come last byte first. *)
Definition TrimRight (s : string) : string :=
  rev (trim space1 (fun c2 c1 => space2 c1 c2)
            (fun c3 c2 c1 => space3 c1 c2 c3) (rev s)).

(** [strings.TrimSpace] *)
Definition TrimSpace (s : string) : string := TrimRight (TrimLeft s).

(** [s[0]], asked for non-empty strings only. *)
Definition byte0 (s : string) : ascii :=
  match s with String c _ => c | "" => zero end.

(** [c] occurs in [s]. *)
Fixpoint contains (c : ascii) (s : string) : bool :=
  match s with
  | "" => false
  | String d s' => if Ascii.eqb d c then true else contains c s'
  end.

(** [s] cut at the first occurrence of [c], which is dropped. *)
Fixpoint cut (c : ascii) (s : string) : option (string * string) :=
  match s with
  | "" => None
  | String d s' =>
      if Ascii.eqb d c then Some ("", s')
      else match cut c s' with
           | Some (l, r) => Some (String d l, r)
           | None => None
           end
  end.

(** [s] without its last byte, when that byte is [c]. *)
Fixpoint strip_last (c : ascii) (s : string) : option string :=
  match s with
  | "" => None
  | String d "" => if Ascii.eqb d c then Some "" else None
  | String d s' =>
      match strip_last c s' with
      | Some t => Some (String d t)
      | None => None
      end
  end.

End Text.

(** ** The two patterns

    Go compiles both with Perl syntax: [^] and [$] match at the two ends
    of the text only, [.] matches every byte but a line feed, and the
    negated class [[^=]] matches a line feed too. *)

Definition LF : ascii := "010"%char.

(** [sectionRegex]: the text is an opening bracket, the group (any bytes
    but line feeds, as many as possible) and a closing bracket at the very
    end.  Returns the group. *)
Definition sectionRegex (line : string) : option string :=
  match line with
  | String "["%char rest =>
      match Text.strip_last "]" rest with
      | Some content => if Text.contains LF content then None else Some content
      | None => None
      end
  | _ => None
  end.

(** [assignRegex]: the text is a first group of one or more bytes other
    than [=], a [=], and a second group of any bytes but line feeds up to
    the very end.  The first group cannot hold a [=], so it ends at the
    first one.  Returns the two groups. *)
Definition assignRegex (line : string) : option (string * string) :=
  match Text.cut "=" line with
  | Some (key, val) =>
      if Text.is_empty key || Text.contains LF val then None else Some (key, val)
  | None => None
  end.


(** ** Go values used by the package *)

(** The order in which [range] visits the keys of a map is left open by
    Go and may differ from one loop to the next.  A [MapOrder] holds the
    choices of the run time: an enumeration of the keys of the section
    map, and one of the option map of each section. *)
Record MapOrder := {
  range_sections : forall V, gmap string V -> list string;
  range_options : string -> gmap string string -> list string;
  range_sections_perm :
    forall V (m : gmap string V), range_sections V m ≡ₚ (map_to_list m).*1;
  range_options_perm :
    forall s (m : gmap string string), range_options s m ≡ₚ (map_to_list m).*1;
}.

(** One such choice, for running examples. *)
Definition key_order : MapOrder :=
  {| range_sections := fun V m => (map_to_list m).*1;
     range_options := fun _ m => (map_to_list m).*1;
     range_sections_perm := fun V m => reflexivity _;
     range_options_perm := fun _ m => reflexivity _ |}.

(** [m[k]] on a map of strings: the zero value when [k] is absent. *)
Definition index (m : gmap string string) (k : string) : string :=
  default "" (m !! k).

(** The index [i] computed by the loops of [RemoveSection] and [remove]:
    [0], overwritten by the index of each element equal to [x]. *)
Definition last_index (x : string) (names : list string) : nat :=
  (foldl (fun '(i, idx) name => (if decide (name = x) then idx else i, S idx))
         (0%nat, 0%nat) names).1.

(** [append(names[:i], names[i+1:]...)].  The slice expression
    [names[i+1:]] panics when [i+1 > len(names)]; [None] is that panic. *)
Definition slice_delete (i : nat) (names : list string) : option (list string) :=
  if decide (S i ≤ length names)%nat
  then Some (take i names ++ drop (S i) names)
  else None.

(** Go's [int] on a 64-bit platform: [lineNum++] wraps around. *)
Definition int_wrap (z : Z) : Z := (z + 2 ^ 63) mod 2 ^ 64 - 2 ^ 63.

(** ** iniOptions *)

Module Opts.

Record iniOptions := {
  ordered : bool;
  optionNames : list string;
  options : gmap string string;
}.

Definition newOptions (ordered : bool) : iniOptions :=
  {| ordered := ordered; optionNames := []; options := ∅ |}.

Definition exist (optionName : string) (opts : iniOptions) : bool :=
  match options opts !! optionName with Some _ => true | None => false end.

Definition add (optionName optionValue : string) (opts : iniOptions)
  : bool * iniOptions :=
  let names :=
    if ordered opts
    then if negb (exist optionName opts)
         then optionNames opts ++ [optionName]
         else optionNames opts
    else optionNames opts in
  (true, {| ordered := ordered opts;
            optionNames := names;
            options := <[optionName := optionValue]> (options opts) |}).

Definition get (optionName : string) (opts : iniOptions) : string * bool :=
  if negb (exist optionName opts) then ("", false)
  else (index (options opts) optionName, true).

Definition remove (optionName : string) (opts : iniOptions)
  : option (bool * iniOptions) :=
  if negb (exist optionName opts) then Some (false, opts)
  else
    let options' := delete optionName (options opts) in
    if ordered opts then
      let i := last_index optionName (optionNames opts) in
      names ← slice_delete i (optionNames opts);
      Some (true, {| ordered := ordered opts;
                     optionNames := names;
                     options := options' |})
    else
      Some (true, {| ordered := ordered opts;
                     optionNames := optionNames opts;
                     options := options' |}).

Definition getOptions (range : gmap string string -> list string)
    (opts : iniOptions) : list string :=
  if negb (ordered opts) then range (options opts)
  else optionNames opts.

End Opts.

Abbreviation iniOptions := Opts.iniOptions.

(** ** INI *)

Record INI := {
  ordered : bool;
  sectionNames : list string;
  sections : gmap string iniOptions;
}.

Definition NewINI (ordered : bool) : INI :=
  {| ordered := ordered; sectionNames := []; sections := ∅ |}.

(** The receiver after [ini.sections[sectionName]] was mutated through its
    pointer. *)
Definition set_section (sectionName : string) (opts : iniOptions) (ini : INI) : INI :=
  {| ordered := ordered ini;
     sectionNames := sectionNames ini;
     sections := <[sectionName := opts]> (sections ini) |}.

Definition HasSection (sectionName : string) (ini : INI) : bool :=
  match sections ini !! sectionName with Some _ => true | None => false end.

Definition HasOption (sectionName optionName : string) (ini : INI) : bool :=
  if negb (HasSection sectionName ini) then false
  else match sections ini !! sectionName with
       | Some opts => Opts.exist optionName opts
       | None => false
       end.

Definition AddSection (sectionName : string) (ini : INI) : bool * INI :=
  if negb (HasSection sectionName ini) then
    let opts := Opts.newOptions (ordered ini) in
    (true, {| ordered := ordered ini;
              sectionNames := if ordered ini
                              then sectionNames ini ++ [sectionName]
                              else sectionNames ini;
              sections := <[sectionName := opts]> (sections ini) |})
  else (false, ini).

(** After the guarded [AddSection] the section is there, so the last
    branch is never taken. *)
Definition AddOption (sectionName optionName optionValue : string) (ini : INI)
  : bool * INI :=
  let ini := if negb (HasSection sectionName ini)
             then (AddSection sectionName ini).2 else ini in
  match sections ini !! sectionName with
  | Some opts =>
      let '(added, opts) := Opts.add optionName optionValue opts in
      (added, set_section sectionName opts ini)
  | None => (false, ini)
  end.

Definition GetOption (sectionName optionName : string) (ini : INI) : string * bool :=
  match sections ini !! sectionName with
  | Some opts => Opts.get optionName opts
  | None => ("", false)
  end.

Definition RemoveSection (sectionName : string) (ini : INI) : option (bool * INI) :=
  if negb (HasSection sectionName ini) then Some (false, ini)
  else
    let sections' := delete sectionName (sections ini) in
    if ordered ini then
      let i := last_index sectionName (sectionNames ini) in
      names ← slice_delete i (sectionNames ini);
      Some (true, {| ordered := ordered ini;
                     sectionNames := names;
                     sections := sections' |})
    else
      Some (true, {| ordered := ordered ini;
                     sectionNames := sectionNames ini;
                     sections := sections' |}).

Definition RemoveOption (sectionName optionName : string) (ini : INI)
  : option (bool * INI) :=
  if negb (HasSection sectionName ini) then Some (false, ini)
  else match sections ini !! sectionName with
       | Some opts =>
           '(removed, opts) ← Opts.remove optionName opts;
           Some (removed, set_section sectionName opts ini)
       | None => Some (false, ini)
       end.

Definition Sections (r : MapOrder) (ini : INI) : list string :=
  if negb (ordered ini) then range_sections r _ (sections ini)
  else sectionNames ini.

Definition Options (r : MapOrder) (sectionName : string) (ini : INI) : list string :=
  if negb (HasSection sectionName ini) then []
  else match sections ini !! sectionName with
       | Some opts => Opts.getOptions (range_options r sectionName) opts
       | None => []
       end.

(** ** Errors, readers and writers *)

(** [ErrSyntax] *)
Record ErrSyntax := {
  Line : Z;
  Source : string;
}.

(** The values of Go's [error] interface that occur: [io.EOF], an
    [ErrSyntax], and any other error of a reader or writer. *)
Inductive error :=
| io_EOF
| syntax_error (e : ErrSyntax)
| io_error (msg : string).

(** A [*bufio.Reader], seen through [ReadString('\n')]: the results of its
    successive calls.  Once the list is used up the stream is at its end:
    every further call returns no data and [io.EOF]. *)
Definition Reader := list (string * option error).

(** The reader over the bytes [content], which never fails: each call
    returns the bytes up to and with the next line feed; the call that
    reaches the end returns what is left, with [io.EOF]. *)
Fixpoint NewReader (content : string) : Reader :=
  match content with
  | "" => [("", Some io_EOF)]
  | String c rest =>
      if Ascii.eqb c LF then (String c "", None) :: NewReader rest
      else match NewReader rest with
           | (line, err) :: more => (String c line, err) :: more
           | [] => [(String c "", Some io_EOF)]
           end
  end.

(** An [io.Writer]: [Write] returns the writer after the call and the
    error of the call. *)
Class Writer (W : Type) := writer_Write : W -> string -> W * option error.

(** [bytes.Buffer]: keeps what is written and never fails. *)
Record Buffer := { contents : string }.

#[export] Instance Buffer_Writer : Writer Buffer :=
  fun b p => ({| contents := contents b +:+ p |}, None).

(** A sink that is broken: every write fails and nothing is stored but
    the number of calls made. *)
Record Broken := { calls : nat }.

#[export] Instance Broken_Writer : Writer Broken :=
  fun b _ => ({| calls := S (calls b) |}, Some (io_error "broken pipe")).

(** What [fmt.Fprintln] formats for string operands: the operands with a
    space between them and a line feed at the end. *)
Fixpoint Sprintln (a : list string) : string :=
  match a with
  | [] => String LF ""
  | [x] => x +:+ String LF ""
  | x :: a' => x +:+ " " +:+ Sprintln a'
  end.

Definition Fprintln {W} `{Writer W} (w : W) (a : list string) : W * option error :=
  writer_Write w (Sprintln a).

(** ** Reading *)

(** What one turn of the loop of [parse] does with the result of
    [ReadString]: it returns from [parse], or goes on with a new [done],
    [section], [lineNum] and [ini]. *)
Inductive turn :=
| Return (ini : INI) (err : option error)
| Continue (done : bool) (section : string) (lineNum : Z) (ini : INI).

(** [err == io.EOF] *)
Definition at_EOF (err : option error) : bool :=
  match err with Some io_EOF => true | _ => false end.

Definition parse_line (read : string * option error)
    (section : string) (lineNum : Z) (ini : INI) : turn :=
  let '(line, err) := read in
  let done := at_EOF err in
  let lineNum := int_wrap (lineNum + 1) in
  let line := Text.TrimSpace line in
  if Text.is_empty line then Continue done section lineNum ini
  else if Ascii.eqb (Text.byte0 line) ";" || Ascii.eqb (Text.byte0 line) "#"
  then Continue done section lineNum ini
  else
    match assignRegex line with
    | Some (key, val) =>
        let key := Text.TrimSpace key in
        let val := Text.TrimSpace val in
        Continue done section lineNum (AddOption section key val ini).2
    | None =>
        match sectionRegex line with
        | Some name =>
            let section := Text.TrimSpace name in
            Continue done section lineNum (AddSection section ini).2
        | None =>
            Return ini (Some (syntax_error {| Line := lineNum; Source := line |}))
        end
    end.

Fixpoint parse_loop (reader : Reader) (section : string) (lineNum : Z) (ini : INI)
  : INI * option error :=
  match reader with
  | [] =>
      match parse_line ("", Some io_EOF) section lineNum ini with
      | Return ini err => (ini, err)
      | Continue _ _ _ ini => (ini, None)
      end
  | read :: reader =>
      match parse_line read section lineNum ini with
      | Return ini err => (ini, err)
      | Continue true _ _ ini => (ini, None)
      | Continue false section lineNum ini => parse_loop reader section lineNum ini
      end
  end.

(** [parse] mutates [ini] and returns the error; here it returns both. *)
Definition parse (reader : Reader) (ini : INI) : INI * option error :=
  parse_loop reader "" 0 ini.

Definition Read (reader : Reader) (ordered : bool) : INI * option error :=
  parse reader (NewINI ordered).

(** [os.Open] and [os.Create] are taken as functions from the path to the
    error or to the open file. *)
Definition ReadFile (open : string -> error + Reader) (path : string)
    (ordered : bool) : option INI * option error :=
  match open path with
  | inl err => (None, Some err)
  | inr file => let '(ini, err) := Read file ordered in (Some ini, err)
  end.

(** ** Writing *)

Definition Write {W} `{Writer W} (r : MapOrder) (ini : INI) (writer : W)
  : W * option error :=
  let writer :=
    foldl (fun writer section =>
             let writer := (Fprintln writer ["[" +:+ section +:+ "]"]).1 in
             let writer :=
               foldl (fun writer option =>
                        let '(value, _) := GetOption section option ini in
                        (Fprintln writer [option; "="; value]).1)
                     writer (Options r section ini) in
             (Fprintln writer []).1)
          writer (Sections r ini) in
  (writer, None).

Definition WriteFile {W} `{Writer W} (create : string -> error + W)
    (r : MapOrder) (ini : INI) (path : string) : option W * option error :=
  match create path with
  | inl err => (None, Some err)
  | inr file => let '(file, err) := Write r ini file in (Some file, err)
  end.

(** The text that [Write] leaves in an empty buffer. *)
Definition written (r : MapOrder) (ini : INI) : string :=
  contents (Write r ini {| contents := "" |}).1.

(** ** Histories of calls *)

Inductive call :=
| CallAddSection (sectionName : string)
| CallAddOption (sectionName optionName optionValue : string)
| CallRemoveSection (sectionName : string)
| CallRemoveOption (sectionName optionName : string).

(** The document after one call; [None] when the call panics. *)
Definition do_call (c : call) (ini : INI) : option INI :=
  match c with
  | CallAddSection s => Some (AddSection s ini).2
  | CallAddOption s o v => Some (AddOption s o v ini).2
  | CallRemoveSection s => snd <$> RemoveSection s ini
  | CallRemoveOption s o => snd <$> RemoveOption s o ini
  end.

Fixpoint do_calls (cs : list call) (ini : INI) : option INI :=
  match cs with
  | [] => Some ini
  | c :: cs => ini ← do_call c ini; do_calls cs ini
  end.

(** ** Kinds of lines

    The tests that [parse] makes on a line, in its order. *)

Definition matched {A} (o : option A) : bool :=
  match o with Some _ => true | None => false end.

Definition is_blank (line : string) : bool :=
  Text.is_empty (Text.TrimSpace line).

Definition is_comment (line : string) : bool :=
  negb (is_blank line) &&
  (Ascii.eqb (Text.byte0 (Text.TrimSpace line)) ";"
   || Ascii.eqb (Text.byte0 (Text.TrimSpace line)) "#").

Definition is_assignment (line : string) : bool :=
  matched (assignRegex (Text.TrimSpace line)).

Definition is_header (line : string) : bool :=
  matched (sectionRegex (Text.TrimSpace line)).

(** A line that is not blank, is no comment and matches neither pattern. *)
Definition invalid (line : string) : bool :=
  negb (is_blank line) && negb (is_comment line)
  && negb (is_assignment line) && negb (is_header line).

(** The lines of a text, as [parse] reads them. *)
Definition lines_of (content : string) : list string := (NewReader content).*1.

(** ** Example documents *)

Definition ex_doc : INI :=
  (AddOption "s" "k" "v" (AddSection "t" (NewINI true)).2).2.

Definition ex_doc_removed : INI :=
  (AddSection "s" (AddSection "t" (NewINI true)).2).2.

(** ** The invariant of the data model *)

(** The order list against the keys of its map: in ordered mode the list
    has the keys, each once; in unordered mode it stays empty. *)
Definition names_ok (ordered : bool) (names : list string) (keys : gset string) : Prop :=
  if ordered then list_to_set names = keys /\ NoDup names else names = [].

Definition options_ok (ordered : bool) (opts : iniOptions) : Prop :=
  Opts.ordered opts = ordered /\
  names_ok ordered (Opts.optionNames opts) (dom (Opts.options opts)).

Definition INI_ok (ini : INI) : Prop :=
  names_ok (ordered ini) (sectionNames ini) (dom (sections ini)) /\
  map_Forall (fun _ opts => options_ok (ordered ini) opts) (sections ini).

(** The option set that [AddOption] adds to: the one of the section, or a
    new one. *)
Definition section_or_new (s : string) (ini : INI) : iniOptions :=
  default (Opts.newOptions (ordered ini)) (sections ini !! s).

(** ** Times of insertion

    What a call does to the presence of a name: [Some true], it puts the
    name in if it is not there; [Some false], it takes the name out;
    [None], it leaves the name alone. *)

Definition section_event (c : call) (s : string) : option bool :=
  match c with
  | CallAddSection s' | CallAddOption s' _ _ =>
      if decide (s' = s) then Some true else None
  | CallRemoveSection s' => if decide (s' = s) then Some false else None
  | CallRemoveOption _ _ => None
  end.

Definition option_event (c : call) (s k : string) : option bool :=
  match c with
  | CallAddOption s' k' _ =>
      if decide (s' = s /\ k' = k) then Some true else None
  | CallRemoveOption s' k' =>
      if decide (s' = s /\ k' = k) then Some false else None
  | CallRemoveSection s' => if decide (s' = s) then Some false else None
  | CallAddSection _ => None
  end.

(** The time of insertion of a name after the event at time [t], from the
    one before it: [None] while the name is not there. *)
Definition born_step (e : option bool) (t : nat) (cur : option nat) : option nat :=
  match e with
  | Some true => Some (default t cur)
  | Some false => None
  | None => cur
  end.

(** The time of insertion after the events of a history that starts at
    time [t]: the time of the first insertion since the name was last
    missing. *)
Fixpoint born (events : list (option bool)) (t : nat) (cur : option nat) : option nat :=
  match events with
  | [] => cur
  | e :: events => born events (S t) (born_step e t cur)
  end.

Definition section_born (cs : list call) (s : string) : option nat :=
  born ((fun c => section_event c s) <$> cs) 0 None.

Definition option_born (cs : list call) (s k : string) : option nat :=
  born ((fun c => option_event c s k) <$> cs) 0 None.

(** Both names are there and [a] was inserted before [b]. *)
Definition inserted_before (f : string -> option nat) (a b : string) : Prop :=
  exists ta tb, f a = Some ta /\ f b = Some tb /\ (ta < tb)%nat.

(** The section that a call names, and the option when it names one. *)
Definition call_section (c : call) : string :=
  match c with
  | CallAddSection s | CallAddOption s _ _
  | CallRemoveSection s | CallRemoveOption s _ => s
  end.

Definition call_option (c : call) : option string :=
  match c with
  | CallAddOption _ k _ | CallRemoveOption _ k => Some k
  | CallAddSection _ | CallRemoveSection _ => None
  end.

(** An order list [names] with the keys of its map and the times of
    insertion [f], at time [t]: the names with a time are the keys, the
    times lie in the past, and every name of the list was inserted before
    the names that follow it. *)
Definition timeline (t : nat) (names : list string) (keys : gset string)
    (f : string -> option nat) : Prop :=
  (forall x, is_Some (f x) <-> x ∈ keys) /\
  (forall x t0, f x = Some t0 -> (t0 < t)%nat) /\
  StronglySorted (inserted_before f) names.

(** The document after the calls made up to time [t], with the times of
    insertion of its sections and options. *)
Definition history_ok (t : nat) (ini : INI)
    (fS : string -> option nat) (fO : string -> string -> option nat) : Prop :=
  ordered ini = true /\ INI_ok ini /\
  timeline t (sectionNames ini) (dom (sections ini)) fS /\
  (forall s opts, sections ini !! s = Some opts ->
     timeline t (Opts.optionNames opts) (dom (Opts.options opts)) (fO s)) /\
  (forall s k, sections ini !! s = None -> fO s k = None).

(** ** Names and values in a text *)

(** No byte of [s] is [=], a bracket or a line feed. *)
Definition plain (s : string) : bool :=
  negb (Text.contains "=" s) && negb (Text.contains "[" s)
  && negb (Text.contains "]" s) && negb (Text.contains LF s).

Definition nonempty (s : string) : bool := negb (Text.is_empty s).

(** [s] neither starts nor ends with white space. *)
Definition trimmed (s : string) : bool := String.eqb (Text.TrimSpace s) s.

(** [s] starts like a comment. *)
Definition comment_start (s : string) : bool :=
  Ascii.eqb (Text.byte0 s) ";" || Ascii.eqb (Text.byte0 s) "#".

(** Every section name, option name and value of the document passes its
    test. *)
Definition texts_ok (section_ok option_ok value_ok : string -> bool) (ini : INI) : Prop :=
  map_Forall (fun s opts =>
                section_ok s = true /\
                map_Forall (fun k v => option_ok k = true /\ value_ok v = true)
                           (Opts.options opts))
             (sections ini).

Definition is_add (c : call) : bool :=
  match c with
  | CallAddSection _ | CallAddOption _ _ _ => true
  | CallRemoveSection _ | CallRemoveOption _ _ => false
  end.

(** A document with a section name that starts with a space. *)
Definition ex_spaced : INI := (AddSection " a" (NewINI true)).2.

(** A document with an option name that starts like a comment. *)
Definition ex_semicolon : INI := (AddOption "s" ";k" "v" (NewINI true)).2.

(** ** The lines of a written document *)

(** The text of lines printed one after the other, each given by the
    operands of its [Fprintln]. *)
Definition printed (ls : list (list string)) : string :=
  foldr (fun a acc => Sprintln a +:+ acc) "" ls.

(** The operands of the lines that [Write] prints for a section: the
    header, the options, the empty line. *)
Definition option_lines (ini : INI) (s : string) (ks : list string) : list (list string) :=
  (fun k => [k; "="; (GetOption s k ini).1]) <$> ks.

Definition section_lines (r : MapOrder) (ini : INI) (s : string) : list (list string) :=
  ["[" +:+ s +:+ "]"] :: option_lines ini s (Options r s ini) ++ [[]].

Definition doc_lines (r : MapOrder) (ini : INI) : list (list string) :=
  concat (section_lines r ini <$> Sections r ini).

(** The calls that [parse] makes on [d] when it reads these lines. *)
Definition replay_options (ini : INI) (s : string) (ks : list string) (d : INI) : INI :=
  foldl (fun d k => (AddOption s k (GetOption s k ini).1 d).2) d ks.

Definition replay_section (r : MapOrder) (ini : INI) (d : INI) (s : string) : INI :=
  replay_options ini s (Options r s ini) (AddSection s d).2.

Definition replay (r : MapOrder) (ini : INI) (ss : list string) (d : INI) : INI :=
  foldl (replay_section r ini) d ss.

(** The tests of the round trip on the options [ks] of section [s] and on
    their values. *)
Definition section_texts_ok (ini : INI) (s : string) (ks : list string) : Prop :=
  forall k, k ∈ ks ->
    plain k = true /\ trimmed k = true /\ nonempty k = true /\
    comment_start k = false /\
    plain (GetOption s k ini).1 = true /\
    trimmed (GetOption s k ini).1 = true /\
    nonempty (GetOption s k ini).1 = true.

(** The option set that reading back the lines of section [s] builds. *)
Definition read_back (r : MapOrder) (ini : INI) (b : bool) (s : string) : iniOptions :=
  {| Opts.ordered := b;
     Opts.optionNames := if b then Options r s ini else [];
     Opts.options := foldl (fun m k => <[k := (GetOption s k ini).1]> m) ∅
                           (Options r s ini) |}.

(** The texts that the round trip keeps: a section name is plain and
    trimmed; an option name is that, not empty, and does not start like a
    comment; a value is plain, trimmed and not empty. *)
Definition header_text (s : string) : bool := plain s && trimmed s.

Definition key_text (k : string) : bool :=
  plain k && trimmed k && nonempty k && negb (comment_start k).

Definition value_text (v : string) : bool := plain v && trimmed v && nonempty v.

(** A text that is plain and not empty. *)
Definition stated_text (s : string) : bool := plain s && nonempty s.

(** A document with an option whose name is empty. *)
Definition ex_unnamed : INI := (AddOption "s" "" "v" (NewINI true)).2.

(** A document for the round trip, in both modes. *)
Definition ex_calls : list call :=
  [CallAddOption "server" "host" "example.org";
   CallAddSection "empty";
   CallAddOption "server" "port" "8080";
   CallAddOption "" "top level" "a b";
   CallAddOption "server" "host" "localhost"].

Definition ex_round (b : bool) : INI :=
  default (NewINI b) (do_calls ex_calls (NewINI b)).

(** A reader whose second call fails with an error that is not [io.EOF],
    and that delivers the rest of the stream afterwards. *)
Definition ex_failing_reader : Reader :=
  [("[a]" +:+ String LF "", None);
   ("", Some (io_error "connection reset"));
   ("k = v" +:+ String LF "", None);
   ("", Some io_EOF)].

#[export] Instance texts_ok_dec section_ok option_ok value_ok ini :
  Decision (texts_ok section_ok option_ok value_ok ini).
Proof. unfold texts_ok. apply _. Defined.

(** ** Line ends *)

Definition CR : ascii := "013"%char.

(** The text with a carriage return put before every line feed. *)
Fixpoint crlf (content : string) : string :=
  match content with
  | "" => ""
  | String c rest =>
      if Ascii.eqb c LF then String CR (String LF (crlf rest))
      else String c (crlf rest)
  end.

(** The line of a syntax error, without its number. *)
Definition error_source (err : option error) : option string :=
  match err with
  | Some (syntax_error e) => Some (Source e)
  | _ => None
  end.

(** ** The two modes *)

(** A document without its order lists: what the unordered mode keeps of
    it. *)
Definition unordered_options (opts : iniOptions) : iniOptions :=
  {| Opts.ordered := false;
     Opts.optionNames := [];
     Opts.options := Opts.options opts |}.

Definition unordered_document (ini : INI) : INI :=
  {| ordered := false;
     sectionNames := [];
     sections := unordered_options <$> sections ini |}.

(** ** The texts of a document that was read *)

Definition readable_header (s : string) : bool :=
  negb (Text.contains "=" s) && negb (Text.contains LF s) && trimmed s.

Definition readable_key (k : string) : bool :=
  negb (Text.contains "=" k) && negb (Text.contains LF k) && trimmed k
  && nonempty k && negb (comment_start k).

Definition readable_value (v : string) : bool :=
  negb (Text.contains LF v) && trimmed v.

(** The line that [Write] prints for the option is read back as the
    option, and the line for the section as its header. *)
Definition option_read_back (s k v : string) : Prop :=
  Text.contains LF k = false /\ Text.contains LF v = false /\
  forall lineNum d,
    parse_line (Sprintln [k; "="; v], None) s lineNum d =
    Continue false s (int_wrap (lineNum + 1)) (AddOption s k v d).2.

Definition header_read_back (s : string) : Prop :=
  Text.contains LF s = false /\
  forall section lineNum d,
    parse_line (Sprintln ["[" +:+ s +:+ "]"], None) section lineNum d =
    Continue false s (int_wrap (lineNum + 1)) (AddSection s d).2.

(** A document with brackets in its names, a [=] in a value and an empty
    value. *)
Definition ex_bracket_calls : list call :=
  [CallAddOption "a]b" "[k]" "x = y";
   CallAddOption "a]b" "empty" "";
   CallAddSection "[c"].

Definition ex_bracket : INI :=
  default (NewINI true) (do_calls ex_bracket_calls (NewINI true)).

(** ** The message of a syntax error *)

(** [ErrSyntax.Error]: [fmt.Sprintf] prints the line number with [%d], in
    decimal digits and with a minus sign when it is negative, and the
    source with [%s], as it is. *)
Definition Error (e : ErrSyntax) : string :=
  "invalid INI syntax on line " +:+ NilZero.string_of_int (Z.to_int (Line e))
  +:+ ": " +:+ Source e.

(** * Properties *)

(** ** Strings and patterns *)

Example sectionRegex_ex : sectionRegex "[a]junk]" = Some "a]junk".
Proof. reflexivity. Qed.

Example assignRegex_ex : assignRegex "k = v=w" = Some ("k ", " v=w").
Proof. reflexivity. Qed.

Lemma app_cons c s t : String c s +:+ t = String c (s +:+ t).
Proof. reflexivity. Qed.

Lemma app_empty_l s : "" +:+ s = s.
Proof. reflexivity. Qed.

Lemma app_empty_r s : s +:+ "" = s.
Proof. induction s as [|c s IH]; [done|]. by rewrite app_cons, IH. Qed.

Lemma app_assoc' s t u : (s +:+ t) +:+ u = s +:+ t +:+ u.
Proof. induction s as [|c s IH]; [done|]. by rewrite !app_cons, IH. Qed.

Lemma strip_last_app c s : Text.strip_last c (s +:+ String c "") = Some s.
Proof.
  induction s as [|d s IH]; simpl.
  - by rewrite Ascii.eqb_refl.
  - rewrite IH. destruct s; reflexivity.
Qed.

Lemma strip_last_Some c s t : Text.strip_last c s = Some t -> s = t +:+ String c "".
Proof.
  revert t. induction s as [|d s IH]; intros t; simpl; [done|].
  destruct s as [|e s].
  - destruct (Ascii.eqb_spec d c); [|done]. intros [= <-]. by subst.
  - destruct (Text.strip_last c (String e s)) as [u|]; [|done].
    intros [= <-]. rewrite app_cons. f_equal. by apply IH.
Qed.

(** A bracketed text is a section header whatever stands between the
    brackets, line feeds apart. *)
Lemma sectionRegex_bracketed content :
  sectionRegex ("[" +:+ content +:+ "]") =
  if Text.contains LF content then None else Some content.
Proof.
  unfold sectionRegex. rewrite app_cons, app_empty_l.
  by rewrite strip_last_app.
Qed.

Lemma sectionRegex_Some line content :
  sectionRegex line = Some content -> line = "[" +:+ content +:+ "]".
Proof.
  unfold sectionRegex. destruct line as [|c rest]; [done|].
  destruct (decide (c = "["%char)) as [->|Hc].
  - destruct (Text.strip_last "]" rest) as [t|] eqn:Hs; [|done].
    destruct (Text.contains LF t); [done|]. intros [= <-].
    apply strip_last_Some in Hs. by rewrite Hs.
  - destruct c as [[] [] [] [] [] [] [] []]; done.
Qed.

(** ** Queries after single calls *)

Lemma HasSection_true s ini :
  HasSection s ini = true <-> is_Some (sections ini !! s).
Proof.
  unfold HasSection. destruct (sections ini !! s); split; intros H;
    try done; try by eexists.
Qed.

Lemma HasSection_false s ini :
  HasSection s ini = false <-> sections ini !! s = None.
Proof. unfold HasSection. by destruct (sections ini !! s). Qed.

Lemma exist_false o opts :
  Opts.exist o opts = false <-> Opts.options opts !! o = None.
Proof. unfold Opts.exist. by destruct (Opts.options opts !! o). Qed.

Lemma get_add o v opts : Opts.get o (Opts.add o v opts).2 = (v, true).
Proof.
  unfold Opts.get, Opts.exist, index. simpl.
  by rewrite lookup_insert_eq.
Qed.

Lemma set_section_id s opts ini :
  sections ini !! s = Some opts -> set_section s opts ini = ini.
Proof.
  intros H. destruct ini as [b names secs]. unfold set_section. simpl in *.
  f_equal. by apply insert_id.
Qed.

(** C9: the section pattern takes everything between the first byte and
    the closing bracket that ends the line: ["[a] extra"] matches neither
    pattern and is a syntax error on line 1, ["[a]junk]"] is the header of
    the section ["a]junk"]. *)
Theorem C9_section_header_greedy :
  (forall content,
     sectionRegex ("[" +:+ content +:+ "]") =
     if Text.contains LF content then None else Some content) /\
  assignRegex "[a] extra" = None /\
  sectionRegex "[a] extra" = None /\
  (forall b, Read (NewReader "[a] extra") b =
             (NewINI b, Some (syntax_error {| Line := 1; Source := "[a] extra" |}))) /\
  assignRegex "[a]junk]" = None /\
  sectionRegex "[a]junk]" = Some "a]junk" /\
  (forall b, Read (NewReader "[a]junk]") b =
             ((AddSection "a]junk" (NewINI b)).2, None)).
Proof.
  split; [apply sectionRegex_bracketed|].
  repeat split; try reflexivity; intros []; reflexivity.
Qed.

(** C6: adding an option to a section that is not there creates the
    section: afterwards [HasSection] holds and [GetOption] returns the
    value and [true]. *)
Theorem C6_implicit_section ini s k v :
  HasSection s ini = false ->
  let ini' := (AddOption s k v ini).2 in
  (AddOption s k v ini).1 = true /\
  HasSection s ini' = true /\
  GetOption s k ini' = (v, true) /\
  sections ini' =
    <[s := (Opts.add k v (Opts.newOptions (ordered ini))).2]> (sections ini).
Proof.
  intros Hs. unfold AddOption, AddSection. rewrite Hs. simpl.
  rewrite lookup_insert_eq. simpl.
  unfold HasSection, GetOption. simpl. rewrite !lookup_insert_eq.
  repeat split;
    [apply (get_add k v (Opts.newOptions (ordered ini))) | by rewrite insert_insert_eq].
Qed.

Lemma C6_implicit_section_witness :
  HasSection "new" (NewINI true) = false /\
  HasSection "new" (AddOption "new" "k" "v" (NewINI true)).2 = true /\
  GetOption "new" "k" (AddOption "new" "k" "v" (NewINI true)).2 = ("v", true).
Proof.
  split; [reflexivity|].
  pose proof (C6_implicit_section (NewINI true) "new" "k" "v" eq_refl) as H.
  simpl in H. destruct H as (_ & H1 & H2 & _). split; [exact H1 | exact H2].
Defined.

(** C8: after a [RemoveOption] that returned [true] the option is gone
    for [HasOption] and [GetOption]; removing an option or a section that
    is not there returns [false] and leaves the document as it was. *)
Theorem C8_removal ini s k :
  (forall ini', RemoveOption s k ini = Some (true, ini') ->
     HasOption s k ini' = false /\ GetOption s k ini' = ("", false)) /\
  (HasOption s k ini = false -> RemoveOption s k ini = Some (false, ini)) /\
  (HasSection s ini = false -> RemoveSection s ini = Some (false, ini)).
Proof.
  split; [|split].
  - intros ini'. unfold RemoveOption, HasSection.
    destruct (sections ini !! s) as [opts|] eqn:Hs; simpl; [|done].
    unfold Opts.remove.
    destruct (Opts.exist k opts); simpl; [|done].
    assert (forall opts', Opts.options opts' = delete k (Opts.options opts) ->
              HasOption s k (set_section s opts' ini) = false /\
              GetOption s k (set_section s opts' ini) = ("", false)) as Hgone.
    { intros opts' Ho. unfold HasOption, GetOption, HasSection. simpl.
      rewrite lookup_insert_eq. simpl.
      unfold Opts.get, Opts.exist. rewrite Ho, lookup_delete_eq. done. }
    destruct (Opts.ordered opts).
    + destruct (slice_delete _ _) as [names|]; simpl; [|done].
      intros [= <-]. by apply Hgone.
    + intros [= <-]. by apply Hgone.
  - unfold HasOption, RemoveOption.
    destruct (HasSection s ini) eqn:Hs; simpl; [|done].
    destruct (sections ini !! s) as [opts|] eqn:Ho; [|done].
    unfold Opts.remove. intros ->. simpl. by rewrite set_section_id.
  - unfold RemoveSection. by intros ->.
Qed.

Lemma C8_removal_witness :
  (RemoveOption "s" "k" ex_doc = Some (true, ex_doc_removed) /\
   HasOption "s" "k" ex_doc_removed = false /\
   GetOption "s" "k" ex_doc_removed = ("", false)) /\
  (HasOption "s" "z" ex_doc = false /\
   RemoveOption "s" "z" ex_doc = Some (false, ex_doc)) /\
  (HasSection "u" ex_doc = false /\
   RemoveSection "u" ex_doc = Some (false, ex_doc)).
Proof.
  split; [|split].
  - assert (RemoveOption "s" "k" ex_doc = Some (true, ex_doc_removed)) as H
      by (vm_compute; reflexivity).
    split; [exact H|]. by apply (C8_removal ex_doc "s" "k").
  - split; [reflexivity|]. by apply (C8_removal ex_doc "s" "z").
  - split; [reflexivity|]. by apply (C8_removal ex_doc "u" "").
Defined.

(** ** The loop of [parse] *)

Lemma int_wrap_small z : - 2 ^ 63 <= z < 2 ^ 63 -> int_wrap z = z.
Proof. intros H. unfold int_wrap. rewrite Z.mod_small; lia. Qed.

(** A line that is skipped or matches a pattern lets the loop go on; the
    new section and document do not depend on the line number. *)
Lemma parse_line_valid line err section ini :
  invalid line = false ->
  exists section' ini',
    forall n, parse_line (line, err) section n ini =
              Continue (at_EOF err) section' (int_wrap (n + 1)) ini'.
Proof.
  unfold invalid, is_comment, is_assignment, is_header, is_blank, parse_line.
  intros H.
  destruct (Text.is_empty (Text.TrimSpace line)); [by eauto|].
  destruct (_ || _); [by eauto|].
  destruct (assignRegex (Text.TrimSpace line)) as [[key val]|]; [by eauto|].
  destruct (sectionRegex (Text.TrimSpace line)) as [name|]; [by eauto|].
  done.
Qed.

Lemma parse_line_skip line err section lineNum ini :
  is_blank line || is_comment line = true ->
  parse_line (line, err) section lineNum ini =
  Continue (at_EOF err) section (int_wrap (lineNum + 1)) ini.
Proof.
  unfold is_comment, is_blank, parse_line. intros H.
  destruct (Text.is_empty (Text.TrimSpace line)); [done|].
  simpl in H. by rewrite H.
Qed.

Lemma parse_line_invalid line err section lineNum ini :
  invalid line = true ->
  parse_line (line, err) section lineNum ini =
  Return ini (Some (syntax_error {| Line := int_wrap (lineNum + 1);
                                    Source := Text.TrimSpace line |})).
Proof.
  unfold invalid, is_comment, is_assignment, is_header, is_blank, parse_line.
  intros H.
  destruct (Text.is_empty (Text.TrimSpace line)); [done|].
  destruct (_ || _); [done|].
  destruct (assignRegex (Text.TrimSpace line)) as [[key val]|]; [done|].
  destruct (sectionRegex (Text.TrimSpace line)) as [name|]; done.
Qed.

#[local] Arguments parse_line : simpl never.

(** The reader over a text returns [io.EOF] with its last line only. *)
Lemma NewReader_shape content :
  exists init last,
    NewReader content = ((fun l => (l, None)) <$> init) ++ [(last, Some io_EOF)].
Proof.
  induction content as [|c rest (init & last & IH)]; simpl.
  - by exists [], "".
  - destruct (Ascii.eqb c LF).
    + exists (String c "" :: init), last. by rewrite IH.
    + rewrite IH. destruct init as [|l init]; simpl.
      * by exists [], (String c last).
      * by exists (String c l :: init), last.
Qed.

Lemma parse_loop_skip reads section lineNum ini :
  Forall (fun l => is_blank l || is_comment l = true) reads.*1 ->
  parse_loop reads section lineNum ini = (ini, None).
Proof.
  revert lineNum. induction reads as [|[line err] reads IH]; intros lineNum H.
  - reflexivity.
  - apply Forall_cons in H as [Hl H]. simpl.
    rewrite parse_line_skip by done.
    destruct (at_EOF err); [done|]. by apply IH.
Qed.

Lemma parse_loop_valid reads section lineNum ini :
  Forall (fun l => invalid l = false) reads.*1 ->
  (parse_loop reads section lineNum ini).2 = None.
Proof.
  revert section lineNum ini.
  induction reads as [|[line err] reads IH]; intros section lineNum ini H.
  - reflexivity.
  - apply Forall_cons in H as [Hl H]. simpl.
    destruct (parse_line_valid line err section ini Hl)
      as (section' & ini' & ->).
    destruct (at_EOF err); [done|]. by apply IH.
Qed.

(** The loop over lines read without error, the first [length init] of
    them valid and the next one not: it returns at that line, with the
    document that the lines before it alone give. *)
Lemma parse_loop_invalid init line err rest section lineNum ini :
  Forall (fun l => invalid l = false) init ->
  invalid line = true ->
  0 <= lineNum -> lineNum + Z.of_nat (length init) + 1 < 2 ^ 63 ->
  parse_loop (((fun l => (l, None)) <$> init) ++ (line, err) :: rest)
             section lineNum ini =
  ((parse_loop ((fun l => (l, None)) <$> init) section lineNum ini).1,
   Some (syntax_error {| Line := lineNum + Z.of_nat (length init) + 1;
                         Source := Text.TrimSpace line |})).
Proof.
  intros Hinit Hline. revert section lineNum ini.
  induction Hinit as [|l init Hl Hinit IH]; intros section lineNum ini H0 Hn.
  - simpl. rewrite parse_line_invalid by done. simpl.
    rewrite int_wrap_small by lia. do 4 f_equal. lia.
  - simpl in *.
    destruct (parse_line_valid l None section ini Hl)
      as (section' & ini' & ->). simpl.
    rewrite int_wrap_small by lia.
    rewrite IH by lia. do 4 f_equal. lia.
Qed.

Lemma reads_split init last i line :
  (init ++ [last]) !! i = Some line ->
  exists err rest,
    ((fun l : string => (l, @None error)) <$> init) ++ [(last, Some io_EOF)] =
    ((fun l : string => (l, @None error)) <$> take i (init ++ [last]))
      ++ (line, err) :: rest.
Proof.
  revert i. induction init as [|a init IH]; intros [|i] H.
  - injection H as <-. by exists (Some io_EOF), [].
  - done.
  - injection H as <-. by eexists None, _.
  - destruct (IH i H) as (err & rest & Heq). exists err, rest.
    rewrite !fmap_cons, <- !app_comm_cons. simpl. f_equal. exact Heq.
Qed.

Lemma first_invalid (lines : list string) :
  Exists (fun l => invalid l = true) lines ->
  exists i line,
    lines !! i = Some line /\ invalid line = true /\
    Forall (fun l => invalid l = false) (take i lines).
Proof.
  induction 1 as [l lines H|l lines H IH].
  - exists 0%nat, l. by repeat split.
  - destruct (invalid l) eqn:Hl.
    + exists 0%nat, l. by repeat split.
    + destruct IH as (i & line & ? & ? & ?).
      exists (S i), line. repeat split; simpl; auto.
Qed.

(** C10: a text of blank lines and comments only, the empty text among
    them, is read without error into a document with no section; the
    section [""] comes with an assignment that stands before every
    header, not with the start of [parse]. *)
Theorem C10_only_blank_and_comments content b :
  Forall (fun l => is_blank l || is_comment l = true) (lines_of content) ->
  Read (NewReader content) b = (NewINI b, None) /\
  sections (Read (NewReader content) b).1 = ∅ /\
  Read (NewReader "") b = (NewINI b, None) /\
  HasSection "" (Read (NewReader "k = v") b).1 = true.
Proof.
  intros H.
  assert (Read (NewReader content) b = (NewINI b, None)) as ->
    by (by apply parse_loop_skip).
  repeat split.
Qed.

Lemma C10_only_blank_and_comments_witness :
  Forall (fun l => is_blank l || is_comment l = true)
         (lines_of "; a comment
     
# another
") /\
  Read (NewReader "; a comment
     
# another
") true = (NewINI true, None).
Proof.
  assert (Forall (fun l => is_blank l || is_comment l = true)
                 (lines_of "; a comment
     
# another
")) as H by (repeat constructor).
  split; [exact H|].
  exact (proj1 (C10_only_blank_and_comments _ true H)).
Defined.

(** C2: [parse] fails exactly when some line is not blank, is no comment
    and matches neither pattern; the error has the number, counted from
    1, of the first such line and the trimmed line, and the document is
    the one that the lines before it give.  The text
    ["not valid ini !!"] fails on line 1 with that source. *)
Theorem C2_syntax_error content b :
  Z.of_nat (length (lines_of content)) < 2 ^ 63 ->
  ((Read (NewReader content) b).2 <> None <->
   Exists (fun l => invalid l = true) (lines_of content)) /\
  (forall i line,
     lines_of content !! i = Some line ->
     invalid line = true ->
     Forall (fun l => invalid l = false) (take i (lines_of content)) ->
     Read (NewReader content) b =
     ((Read (take i (NewReader content)) b).1,
      Some (syntax_error {| Line := Z.of_nat i + 1;
                            Source := Text.TrimSpace line |}))) /\
  Read (NewReader "not valid ini !!") b =
  (NewINI b,
   Some (syntax_error {| Line := 1; Source := "not valid ini !!" |})).
Proof.
  intros Hlen.
  assert (forall i line,
     lines_of content !! i = Some line ->
     invalid line = true ->
     Forall (fun l => invalid l = false) (take i (lines_of content)) ->
     Read (NewReader content) b =
     ((Read (take i (NewReader content)) b).1,
      Some (syntax_error {| Line := Z.of_nat i + 1;
                            Source := Text.TrimSpace line |}))) as Hfirst.
  { intros i line Hi Hline Hbefore. unfold lines_of in *.
    destruct (NewReader_shape content) as (init & last & Hshape).
    assert ((NewReader content).*1 = init ++ [last]) as Hlines.
    { rewrite Hshape, fmap_app, <- list_fmap_compose. simpl.
      by rewrite list_fmap_id. }
    rewrite Hlines in *.
    destruct (reads_split init last i line Hi) as (err & rest & Hsplit).
    assert (length (take i (init ++ [last])) = i) as Hi'.
    { apply lookup_lt_Some in Hi. rewrite length_take. lia. }
    rewrite Hshape, Hsplit.
    set (pre := (fun l : string => (l, @None error)) <$> take i (init ++ [last])).
    assert (i = length pre) as Hpre by (unfold pre; by rewrite length_fmap).
    rewrite (take_app_length' pre _ i Hpre).
    unfold Read, parse, pre.
    rewrite parse_loop_invalid; rewrite ?Hi'; try done; try lia.
    apply lookup_lt_Some in Hi. lia. }
  split; [split|split; [exact Hfirst|]].
  - intros Herr.
    destruct (Forall_Exists_dec (fun l => invalid l = false)
                (fun l => invalid l = true)
                (fun l => match invalid l as x
                            return {x = false} + {x = true} with
                          | true => right eq_refl
                          | false => left eq_refl
                          end)
                (lines_of content)) as [Hall|Hex]; [|done].
    exfalso. apply Herr. by apply parse_loop_valid.
  - intros (i & line & Hi & Hline & Hbefore)%first_invalid.
    by rewrite (Hfirst i line Hi Hline Hbefore).
  - by destruct b.
Qed.

Lemma C2_syntax_error_witness :
  Z.of_nat (length (lines_of "[s]
k = v
oops
[t]")) < 2 ^ 63 /\
  Read (NewReader "[s]
k = v
oops
[t]") true =
  ((AddOption "s" "k" "v" (NewINI true)).2,
   Some (syntax_error {| Line := 3; Source := "oops" |})).
Proof.
  assert (Z.of_nat (length (lines_of "[s]
k = v
oops
[t]")) < 2 ^ 63) as H by (vm_compute; reflexivity).
  split; [exact H|].
  pose proof (C2_syntax_error _ true H) as (_ & Hfirst & _).
  rewrite (Hfirst 2%nat "oops
") by (try reflexivity; repeat constructor).
  reflexivity.
Defined.

(** ** Removal from the order list *)

Lemma last_index_fold (x : string) (names : list string) (i idx : nat) :
  foldl (fun '(i, idx) name => (if decide (name = x) then idx else i, S idx))
        (i, idx) names
  = (match list_find (fun y : string => y = x) (reverse names) with
     | Some (j, _) => (idx + (length names - S j))%nat
     | None => i
     end, (idx + length names)%nat).
Proof.
  revert i idx. induction names as [|y names IH] using rev_ind; intros i idx.
  - simpl. f_equal. lia.
  - rewrite foldl_snoc, IH, reverse_snoc, length_app. simpl.
    destruct (decide (y = x)) as [->|Hy].
    + f_equal; lia.
    + destruct (list_find _ (reverse names)) as [[j z]|] eqn:Hf; simpl.
      * apply list_find_Some in Hf as (Hj%lookup_lt_Some & _).
        rewrite length_reverse in Hj. f_equal; lia.
      * f_equal. lia.
Qed.

(** Where the name stands once in the list, the loop finds its index and
    the slice expression takes out that element and no other. *)
Lemma slice_delete_last_index (x : string) (names : list string) :
  x ∈ names -> NoDup names ->
  slice_delete (last_index x names) names = Some (filter (fun y => y ≠ x) names).
Proof.
  intros (l1 & l2 & ->)%list_elem_of_split Hnd.
  apply NoDup_app in Hnd as (_ & H1 & (H2 & _)%NoDup_cons).
  assert (x ∉ l1) as Hx1 by (intros Hx; apply (H1 x Hx); left).
  assert (forall l : list string, x ∉ l -> filter (fun y => y ≠ x) l = l) as Hfilter.
  { intros l Hl. induction l as [|a l IHl]; [done|].
    apply not_elem_of_cons in Hl as [Ha Hl].
    rewrite filter_cons_True by done. f_equal. by apply IHl. }
  assert (last_index x (l1 ++ x :: l2) = length l1) as ->.
  { unfold last_index. rewrite foldl_app. simpl.
    rewrite (last_index_fold x l1).
    destruct (list_find _ (reverse l1)) as [[j z]|] eqn:Hf.
    { apply list_find_Some in Hf as (Hj & -> & _).
      exfalso. apply Hx1. rewrite <- elem_of_reverse.
      by eapply list_elem_of_lookup_2. }
    rewrite decide_True by done.
    rewrite (last_index_fold x l2).
    destruct (list_find _ (reverse l2)) as [[j z]|] eqn:Hf2.
    { apply list_find_Some in Hf2 as (Hj & -> & _).
      exfalso. apply H2. rewrite <- elem_of_reverse.
      by eapply list_elem_of_lookup_2. }
    simpl. lia. }
  unfold slice_delete. rewrite decide_True by (rewrite length_app; simpl; lia).
  rewrite take_app_length.
  replace (drop (S (length l1)) (l1 ++ x :: l2)) with l2.
  2: { change (x :: l2) with ([x] ++ l2). rewrite app_assoc. symmetry.
       apply drop_app_length'. rewrite length_app. simpl. lia. }
  rewrite filter_app, filter_cons_False by (intros H; by apply H).
  by rewrite !Hfilter.
Qed.

(** ** The invariant is kept *)

Lemma filter_ne_absent (x : string) (l : list string) :
  x ∉ l -> filter (fun y => y ≠ x) l = l.
Proof.
  induction l as [|a l IH]; [done|].
  intros [Ha Hl]%not_elem_of_cons.
  rewrite filter_cons_True by done. f_equal. by apply IH.
Qed.

Lemma names_ok_elem names keys (x : string) :
  names_ok true names keys -> x ∈ names <-> x ∈ keys.
Proof. intros [<- _]. by rewrite elem_of_list_to_set. Qed.

Lemma names_ok_absent b names keys (x : string) :
  names_ok b names keys -> x ∉ keys -> filter (fun y => y ≠ x) names = names.
Proof.
  destruct b; simpl.
  - intros H Hx. apply filter_ne_absent. by rewrite (names_ok_elem _ _ _ H).
  - by intros ->.
Qed.

Lemma names_ok_filter b names keys (x : string) :
  names_ok b names keys ->
  names_ok b (filter (fun y => y ≠ x) names) (keys ∖ {[x]}).
Proof.
  destruct b; simpl.
  - intros [<- Hnd]. split; [|by apply NoDup_filter].
    apply set_eq. intros y.
    rewrite elem_of_difference, !elem_of_list_to_set, list_elem_of_filter.
    rewrite elem_of_singleton. tauto.
  - by intros ->.
Qed.

Lemma names_ok_snoc b names keys (x : string) :
  x ∉ keys -> names_ok b names keys ->
  names_ok b (if b then names ++ [x] else names) ({[x]} ∪ keys).
Proof.
  destruct b; simpl; [|done].
  intros Hx [<- Hnd]. split.
  - rewrite list_to_set_snoc_L. apply (comm_L (∪)).
  - apply NoDup_app. repeat split; [done| |apply NoDup_singleton].
    intros y Hy ->%list_elem_of_singleton.
    apply Hx. by rewrite elem_of_list_to_set.
Qed.

Lemma exist_dom o opts :
  Opts.exist o opts = true <-> o ∈ dom (Opts.options opts).
Proof.
  unfold Opts.exist. rewrite elem_of_dom.
  destruct (Opts.options opts !! o); split; try done; by intros [].
Qed.

Lemma HasSection_dom s ini : HasSection s ini = true <-> s ∈ dom (sections ini).
Proof. by rewrite HasSection_true, elem_of_dom. Qed.

Lemma newOptions_ok b : options_ok b (Opts.newOptions b).
Proof. split; [done|]. destruct b; simpl; [|done]. split; [set_solver|constructor]. Qed.

Lemma add_ok b k v opts :
  options_ok b opts -> options_ok b (Opts.add k v opts).2.
Proof.
  intros [Hb Hn]. split; [done|]. simpl. rewrite Hb, dom_insert_L.
  destruct (Opts.exist k opts) eqn:He; simpl.
  - apply exist_dom in He.
    rewrite (subseteq_union_1_L {[k]}) by (by apply singleton_subseteq_l).
    by destruct b.
  - apply names_ok_snoc; [|done].
    rewrite <- exist_dom. by rewrite He.
Qed.

(** Under the invariant [remove] does not panic, and takes the name out of
    the map and out of the list. *)
Lemma remove_spec b k opts :
  options_ok b opts ->
  Opts.remove k opts =
  Some (Opts.exist k opts,
        {| Opts.ordered := b;
           Opts.optionNames := filter (fun y => y ≠ k) (Opts.optionNames opts);
           Opts.options := delete k (Opts.options opts) |}).
Proof.
  intros [Hb Hn]. unfold Opts.remove.
  destruct (Opts.exist k opts) eqn:He; simpl.
  - apply exist_dom in He. rewrite Hb. destruct b; simpl in *.
    + rewrite slice_delete_last_index; [done| |by destruct Hn].
      by rewrite (names_ok_elem _ _ _ Hn).
    + by rewrite Hn.
  - assert (k ∉ dom (Opts.options opts)) as Hk
      by (rewrite <- exist_dom; by rewrite He).
    rewrite (names_ok_absent _ _ _ _ Hn Hk).
    rewrite delete_id by (by apply not_elem_of_dom).
    destruct opts; simpl in *. by subst.
Qed.

Lemma remove_ok b k opts :
  options_ok b opts ->
  exists opts', Opts.remove k opts = Some (Opts.exist k opts, opts') /\
                options_ok b opts'.
Proof.
  intros H. eexists. split; [by apply remove_spec|].
  split; [done|]. simpl. rewrite dom_delete_L.
  apply names_ok_filter, H.
Qed.

Lemma RemoveSection_spec s ini :
  INI_ok ini ->
  RemoveSection s ini =
  Some (HasSection s ini,
        {| ordered := ordered ini;
           sectionNames := filter (fun y => y ≠ s) (sectionNames ini);
           sections := delete s (sections ini) |}).
Proof.
  intros [Hn _]. unfold RemoveSection.
  destruct (HasSection s ini) eqn:He; simpl.
  - apply HasSection_dom in He. destruct (ordered ini); simpl in *.
    + rewrite slice_delete_last_index; [done| |by destruct Hn].
      by rewrite (names_ok_elem _ _ _ Hn).
    + by rewrite Hn.
  - assert (s ∉ dom (sections ini)) as Hk
      by (rewrite <- HasSection_dom; by rewrite He).
    rewrite (names_ok_absent _ _ _ _ Hn Hk).
    rewrite delete_id by (by apply not_elem_of_dom).
    by destruct ini.
Qed.

Lemma AddSection_ok s ini : INI_ok ini -> INI_ok (AddSection s ini).2.
Proof.
  intros [Hn Ho]. unfold AddSection.
  destruct (HasSection s ini) eqn:He; simpl; [done|].
  split; simpl.
  - rewrite dom_insert_L. apply names_ok_snoc; [|done].
    rewrite <- HasSection_dom. by rewrite He.
  - apply map_Forall_insert_2; [apply newOptions_ok|done].
Qed.

Lemma set_section_ok s opts ini :
  INI_ok ini -> is_Some (sections ini !! s) -> options_ok (ordered ini) opts ->
  INI_ok (set_section s opts ini).
Proof.
  intros [Hn Ho] Hs Hopts. split; simpl.
  - rewrite dom_insert_L.
    apply elem_of_dom in Hs.
    by rewrite (subseteq_union_1_L {[s]}) by (by apply singleton_subseteq_l).
  - by apply map_Forall_insert_2.
Qed.

Lemma AddSection_ordered s ini : ordered (AddSection s ini).2 = ordered ini.
Proof. unfold AddSection. by destruct (HasSection s ini). Qed.

Lemma AddSection_lookup s ini :
  is_Some (sections (AddSection s ini).2 !! s).
Proof.
  unfold AddSection. destruct (HasSection s ini) eqn:He; simpl.
  - by apply HasSection_true.
  - rewrite lookup_insert_eq. by eexists.
Qed.

Lemma AddOption_ok s k v ini : INI_ok ini -> INI_ok (AddOption s k v ini).2.
Proof.
  intros Hok. unfold AddOption.
  set (ini1 := if negb (HasSection s ini) then (AddSection s ini).2 else ini).
  assert (INI_ok ini1) as Hok1.
  { unfold ini1. destruct (HasSection s ini); simpl; [done|by apply AddSection_ok]. }
  destruct (sections ini1 !! s) as [opts|] eqn:Hs; [|done].
  simpl. apply set_section_ok; [done|by eexists|].
  apply add_ok. destruct Hok1 as [_ Ho]. by apply (Ho s).
Qed.

Lemma AddOption_ordered s k v ini : ordered (AddOption s k v ini).2 = ordered ini.
Proof.
  unfold AddOption.
  set (ini1 := if negb (HasSection s ini) then (AddSection s ini).2 else ini).
  assert (ordered ini1 = ordered ini) as <-.
  { unfold ini1. destruct (HasSection s ini); simpl; [done|apply AddSection_ordered]. }
  by destruct (sections ini1 !! s).
Qed.

Lemma RemoveSection_ok s ini :
  INI_ok ini ->
  exists ini', RemoveSection s ini = Some (HasSection s ini, ini') /\
               ordered ini' = ordered ini /\ INI_ok ini'.
Proof.
  intros Hok. eexists. split; [by apply RemoveSection_spec|].
  split; [done|]. destruct Hok as [Hn Ho]. split; simpl.
  - rewrite dom_delete_L. by apply names_ok_filter.
  - by apply map_Forall_delete.
Qed.

Lemma RemoveOption_ok s k ini :
  INI_ok ini ->
  exists ini', RemoveOption s k ini = Some (HasOption s k ini, ini') /\
               ordered ini' = ordered ini /\ INI_ok ini'.
Proof.
  intros Hok. unfold RemoveOption, HasOption.
  destruct (HasSection s ini) eqn:He; simpl; [|by eauto].
  destruct (sections ini !! s) as [opts|] eqn:Hs; [|by eauto].
  destruct Hok as [Hn Ho].
  destruct (remove_ok _ k opts (Ho s opts Hs)) as (opts' & -> & Hopts').
  simpl. eexists. split; [done|]. split; [done|].
  apply set_section_ok; [by split|by eexists|done].
Qed.

Lemma NewINI_ok b : INI_ok (NewINI b).
Proof.
  split; simpl.
  - destruct b; simpl; [|done]. split; [set_solver|constructor].
  - apply map_Forall_empty.
Qed.

Lemma do_call_ok c ini :
  INI_ok ini ->
  exists ini', do_call c ini = Some ini' /\
               ordered ini' = ordered ini /\ INI_ok ini'.
Proof.
  intros Hok. destruct c as [s|s k v|s|s k]; simpl.
  - eexists. split; [done|]. split; [apply AddSection_ordered|by apply AddSection_ok].
  - eexists. split; [done|]. split; [apply AddOption_ordered|by apply AddOption_ok].
  - destruct (RemoveSection_ok s ini Hok) as (ini' & -> & ? & ?). by eexists.
  - destruct (RemoveOption_ok s k ini Hok) as (ini' & -> & ? & ?). by eexists.
Qed.

Lemma do_calls_ok cs ini :
  INI_ok ini ->
  exists ini', do_calls cs ini = Some ini' /\
               ordered ini' = ordered ini /\ INI_ok ini'.
Proof.
  revert ini. induction cs as [|c cs IH]; intros ini Hok; simpl.
  - by eexists.
  - destruct (do_call_ok c ini Hok) as (ini1 & -> & Hb & Hok1). simpl.
    destruct (IH ini1 Hok1) as (ini' & ? & ? & ?).
    exists ini'. split; [done|]. split; [congruence|done].
Qed.

(** C5: whatever calls are made on a new document, none panics, and
    afterwards, in ordered mode, the names in [sectionNames] are the keys
    of [sections], each once; in unordered mode [sectionNames] is empty;
    and the same holds of [optionNames] and [options] in each section. *)
Theorem C5_order_invariant cs b :
  exists ini,
    do_calls cs (NewINI b) = Some ini /\
    ordered ini = b /\
    (if b
     then list_to_set (sectionNames ini) = dom (sections ini)
          /\ NoDup (sectionNames ini)
     else sectionNames ini = []) /\
    forall s opts,
      sections ini !! s = Some opts ->
      Opts.ordered opts = b /\
      if b
      then list_to_set (Opts.optionNames opts) = dom (Opts.options opts)
           /\ NoDup (Opts.optionNames opts)
      else Opts.optionNames opts = [].
Proof.
  destruct (do_calls_ok cs (NewINI b) (NewINI_ok b)) as (ini & Hrun & Hb & Hn & Ho).
  exists ini. simpl in Hb. subst b.
  split; [done|]. split; [done|]. split; [exact Hn|].
  intros s opts Hs. exact (Ho s opts Hs).
Qed.

(** ** What the calls do to the lists *)

Lemma AddOption_spec s k v ini :
  AddOption s k v ini =
  (true,
   {| ordered := ordered ini;
      sectionNames := if ordered ini && negb (HasSection s ini)
                      then sectionNames ini ++ [s] else sectionNames ini;
      sections := <[s := (Opts.add k v (section_or_new s ini)).2]> (sections ini) |}).
Proof.
  unfold AddOption, AddSection, section_or_new, HasSection, set_section.
  destruct (sections ini !! s) as [opts|] eqn:Hs; simpl.
  - rewrite Hs. simpl. by rewrite andb_false_r.
  - rewrite lookup_insert_eq. simpl. rewrite insert_insert_eq, andb_true_r.
    done.
Qed.

Lemma AddSection_spec s ini :
  AddSection s ini =
  (negb (HasSection s ini),
   {| ordered := ordered ini;
      sectionNames := if ordered ini && negb (HasSection s ini)
                      then sectionNames ini ++ [s] else sectionNames ini;
      sections := <[s := section_or_new s ini]> (sections ini) |}).
Proof.
  unfold AddSection, section_or_new, HasSection.
  destruct (sections ini !! s) as [opts|] eqn:Hs; simpl.
  - rewrite andb_false_r, insert_id by done. by destruct ini.
  - by rewrite andb_true_r.
Qed.

Lemma section_or_new_ok s ini :
  INI_ok ini -> options_ok (ordered ini) (section_or_new s ini).
Proof.
  intros [_ Ho]. unfold section_or_new.
  destruct (sections ini !! s) as [opts|] eqn:Hs; simpl.
  - by apply (Ho s).
  - apply newOptions_ok.
Qed.

(** The names that [Sections] and [Options] list are the names that are
    there, each once, whatever the order of the run time. *)
Lemma range_sections_keys r {V} (m : gmap string V) :
  NoDup (range_sections r V m) /\
  forall k, k ∈ range_sections r V m <-> k ∈ dom m.
Proof.
  pose proof (range_sections_perm r V m) as Hp. split.
  - rewrite Hp. apply NoDup_fst_map_to_list.
  - intros k. rewrite Hp, elem_of_dom, list_elem_of_fmap. split.
    + intros ([k' v] & -> & Hkv%elem_of_map_to_list). by eexists.
    + intros [v Hv]. exists (k, v). split; [done|]. by apply elem_of_map_to_list.
Qed.

Lemma range_options_keys r s (m : gmap string string) :
  NoDup (range_options r s m) /\
  forall k, k ∈ range_options r s m <-> k ∈ dom m.
Proof.
  pose proof (range_options_perm r s m) as Hp. split.
  - rewrite Hp. apply NoDup_fst_map_to_list.
  - intros k. rewrite Hp, elem_of_dom, list_elem_of_fmap. split.
    + intros ([k' v] & -> & Hkv%elem_of_map_to_list). by eexists.
    + intros [v Hv]. exists (k, v). split; [done|]. by apply elem_of_map_to_list.
Qed.

Lemma getOptions_keys r s b opts :
  options_ok b opts ->
  NoDup (Opts.getOptions (range_options r s) opts) /\
  forall k, k ∈ Opts.getOptions (range_options r s) opts
            <-> k ∈ dom (Opts.options opts).
Proof.
  intros [Hb Hn]. unfold Opts.getOptions. rewrite Hb.
  destruct b; simpl in *.
  - destruct Hn as [<- Hnd]. split; [done|].
    intros k. by rewrite elem_of_list_to_set.
  - apply range_options_keys.
Qed.

Lemma Sections_keys r ini :
  INI_ok ini ->
  NoDup (Sections r ini) /\
  forall s, s ∈ Sections r ini <-> s ∈ dom (sections ini).
Proof.
  intros [Hn _]. unfold Sections. destruct (ordered ini); simpl in *.
  - destruct Hn as [<- Hnd]. split; [done|].
    intros k. by rewrite elem_of_list_to_set.
  - apply range_sections_keys.
Qed.

Lemma Options_lookup r s ini opts :
  sections ini !! s = Some opts ->
  Options r s ini = Opts.getOptions (range_options r s) opts.
Proof. intros Hs. unfold Options, HasSection. by rewrite Hs. Qed.

Lemma filter_eq_NoDup (k : string) (l : list string) :
  NoDup l -> k ∈ l -> filter (fun y => y = k) l = [k].
Proof.
  induction 1 as [|a l Ha Hnd IH]; [by intros ?%elem_of_nil|].
  intros [->|Hk]%elem_of_cons.
  - rewrite filter_cons_True by done. f_equal.
    clear IH Hnd. induction l as [|c l IHl]; [done|].
    apply not_elem_of_cons in Ha as [Hc Hl].
    rewrite filter_cons_False by congruence. by apply IHl.
  - rewrite filter_cons_False by (intros ->; done). by apply IH.
Qed.

Lemma AddOption_lookup s k v ini :
  sections (AddOption s k v ini).2 !! s =
  Some (Opts.add k v (section_or_new s ini)).2.
Proof. rewrite AddOption_spec. simpl. apply lookup_insert_eq. Qed.

Lemma exist_add k v opts : Opts.exist k (Opts.add k v opts).2 = true.
Proof. unfold Opts.exist. simpl. by rewrite lookup_insert_eq. Qed.

(** C7: on a document made by any calls, [AddOption] of a name and then
    of the same name with another value returns [true] both times and
    leaves the name once in the list of the section, with the second
    value; in ordered mode the list is the one after the first call, so
    the name stands where it stood. *)
Theorem C7_overwrite cs b r s k v1 v2 :
  exists ini,
    do_calls cs (NewINI b) = Some ini /\
    let first := AddOption s k v1 ini in
    let second := AddOption s k v2 first.2 in
    first.1 = true /\ second.1 = true /\
    GetOption s k second.2 = (v2, true) /\
    filter (fun y => y = k) (Options r s second.2) = [k] /\
    (b = true -> Options r s second.2 = Options r s first.2).
Proof.
  destruct (do_calls_ok cs (NewINI b) (NewINI_ok b)) as (ini & Hrun & Hb & Hok).
  exists ini. split; [done|]. simpl in Hb.
  pose proof (AddOption_ok s k v1 ini Hok) as Hok1.
  pose proof (AddOption_ok s k v2 _ Hok1) as Hok2.
  pose proof (AddOption_ordered s k v1 ini) as Hb1.
  pose proof (AddOption_lookup s k v1 ini) as H1.
  pose proof (AddOption_lookup s k v2 (AddOption s k v1 ini).2) as H2.
  simpl.
  set (ini1 := (AddOption s k v1 ini).2) in *.
  set (ini2 := (AddOption s k v2 ini1).2) in *.
  set (opts1 := (Opts.add k v1 (section_or_new s ini)).2) in *.
  assert (section_or_new s ini1 = opts1) as Hnew
    by (unfold section_or_new; by rewrite H1).
  rewrite Hnew in H2.
  split; [by rewrite AddOption_spec|]. split; [by rewrite AddOption_spec|].
  split; [|split].
  - unfold GetOption. rewrite H2. apply get_add.
  - rewrite (Options_lookup r s ini2 _ H2).
    destruct Hok2 as [_ Ho]. pose proof (Ho s _ H2) as Hopts.
    destruct (getOptions_keys r s _ _ Hopts) as [Hnd Hin].
    apply filter_eq_NoDup; [done|]. apply Hin. simpl.
    rewrite dom_insert_L. by apply elem_of_union_l, elem_of_singleton.
  - intros ->.
    rewrite (Options_lookup r s ini2 _ H2), (Options_lookup r s ini1 _ H1).
    unfold Opts.getOptions. simpl.
    assert (Opts.ordered (section_or_new s ini) = true) as ->.
    { rewrite <- Hb. apply (section_or_new_ok s ini Hok). }
    simpl. unfold opts1. by rewrite exist_add.
Qed.

Lemma C7_overwrite_witness :
  exists ini,
    do_calls [CallAddOption "s" "a" "1"] (NewINI true) = Some ini /\
    GetOption "s" "k" (AddOption "s" "k" "v2" (AddOption "s" "k" "v1" ini).2).2
    = ("v2", true) /\
    Options key_order "s" (AddOption "s" "k" "v2" (AddOption "s" "k" "v1" ini).2).2
    = Options key_order "s" (AddOption "s" "k" "v1" ini).2.
Proof.
  destruct (C7_overwrite [CallAddOption "s" "a" "1"] true key_order
              "s" "k" "v1" "v2") as (ini & Hcs & _ & _ & Hget & _ & Hord).
  exists ini. split; [exact Hcs|]. split; [exact Hget|exact (Hord eq_refl)].
Defined.

(** ** Order of insertion *)

Lemma StronglySorted_filter {A} (R : relation A) (P : A -> Prop)
    `{forall x, Decision (P x)} (l : list A) :
  StronglySorted R l -> StronglySorted R (filter P l).
Proof.
  induction 1 as [|a l Hl IH Ha]; [constructor|].
  destruct (decide (P a)).
  - rewrite filter_cons_True by done. constructor; [done|].
    apply Forall_forall. intros y [_ Hy]%list_elem_of_filter.
    by eapply Forall_forall in Ha.
  - by rewrite filter_cons_False.
Qed.

Lemma StronglySorted_ext (f f' : string -> option nat) (l : list string) :
  (forall x, x ∈ l -> f' x = f x) ->
  StronglySorted (inserted_before f) l -> StronglySorted (inserted_before f') l.
Proof.
  intros Hf Hl. induction Hl as [|a l Hl IH Ha]; [constructor|].
  constructor.
  - apply IH. intros x Hx. apply Hf. by right.
  - apply Forall_forall. intros y Hy.
    eapply Forall_forall in Ha as (ta & tb & H1 & H2 & Hlt); [|done].
    exists ta, tb. rewrite !Hf; [done|by right|by left].
Qed.

Lemma timeline_keep t names keys (f f' : string -> option nat) :
  (forall x, f' x = f x) ->
  timeline t names keys f -> timeline (S t) names keys f'.
Proof.
  intros Hf (Hk & Ht & Hs). split; [|split].
  - intros x. by rewrite Hf.
  - intros x t0. rewrite Hf. intros ?%Ht. lia.
  - by apply (StronglySorted_ext f).
Qed.

Lemma timeline_insert t names keys (f f' : string -> option nat) (a : string) :
  (forall x, f' x = born_step (if decide (a = x) then Some true else None) t (f x)) ->
  names_ok true names keys ->
  timeline t names keys f ->
  timeline (S t) (if decide (a ∈ keys) then names else names ++ [a])
           ({[a]} ∪ keys) f'.
Proof.
  intros Hf Hn (Hk & Ht & Hs).
  assert (forall x, x ≠ a -> f' x = f x) as Hne.
  { intros x Hx. rewrite Hf. by rewrite decide_False. }
  assert (f' a = Some (default t (f a))) as Ha.
  { rewrite Hf. by rewrite decide_True. }
  split; [|split].
  - intros x. rewrite elem_of_union, elem_of_singleton, <- Hk.
    destruct (decide (x = a)) as [->|Hx].
    + rewrite Ha. split; [by left|by eexists].
    + rewrite Hne by done. split; [by right|by intros [|]].
  - intros x t0. destruct (decide (x = a)) as [->|Hx].
    + rewrite Ha. destruct (f a) as [ta|] eqn:Hfa; simpl; intros [= <-].
      * apply Ht in Hfa. lia.
      * lia.
    + rewrite Hne by done. intros ?%Ht. lia.
  - destruct (decide (a ∈ keys)) as [Hin|Hout].
    + apply (StronglySorted_ext f); [|done].
      intros x _. destruct (decide (x = a)) as [->|Hx]; [|by apply Hne].
      rewrite Ha. apply Hk in Hin as [ta Hta]. by rewrite Hta.
    + assert (f a = None) as Hfa.
      { destruct (f a) eqn:E; [|done]. exfalso. apply Hout, Hk. by eexists. }
      assert (a ∉ names) as Hnames by (by rewrite (names_ok_elem _ _ _ Hn)).
      apply StronglySorted_app. split; [|split].
      * intros x y Hx ->%list_elem_of_singleton.
        assert (x ∈ keys) as [tx Htx]%Hk by (by rewrite <- (names_ok_elem _ _ _ Hn)).
        exists tx, t. rewrite Ha, Hfa, Hne by (intros ->; done).
        repeat split; [done|]. by apply Ht in Htx.
      * apply (StronglySorted_ext f); [|done].
        intros x Hx. apply Hne. by intros ->.
      * repeat constructor.
Qed.

Lemma timeline_remove t names keys (f f' : string -> option nat) (a : string) :
  (forall x, f' x = born_step (if decide (a = x) then Some false else None) t (f x)) ->
  timeline t names keys f ->
  timeline (S t) (filter (fun y => y ≠ a) names) (keys ∖ {[a]}) f'.
Proof.
  intros Hf (Hk & Ht & Hs).
  assert (forall x, x ≠ a -> f' x = f x) as Hne.
  { intros x Hx. rewrite Hf. by rewrite decide_False. }
  assert (f' a = None) as Ha.
  { rewrite Hf. by rewrite decide_True. }
  split; [|split].
  - intros x. rewrite elem_of_difference, elem_of_singleton, <- Hk.
    destruct (decide (x = a)) as [->|Hx].
    + rewrite Ha. split; [by intros []|by intros [_ ?]].
    + rewrite Hne by done. split; [by split|by intros []].
  - intros x t0. destruct (decide (x = a)) as [->|Hx].
    + by rewrite Ha.
    + rewrite Hne by done. intros ?%Ht. lia.
  - apply (StronglySorted_ext f).
    + intros x [Hx _]%list_elem_of_filter. by apply Hne.
    + by apply StronglySorted_filter.
Qed.

Lemma timeline_empty t (f : string -> option nat) :
  (forall x, f x = None) -> timeline t [] ∅ f.
Proof.
  intros Hf. split; [|split].
  - intros x. rewrite Hf. split; [by intros []|by intros ?%elem_of_empty].
  - intros x t0. by rewrite Hf.
  - constructor.
Qed.

Lemma RemoveOption_spec s k ini :
  INI_ok ini ->
  RemoveOption s k ini =
  Some (HasOption s k ini,
        match sections ini !! s with
        | Some opts =>
            set_section s
              {| Opts.ordered := ordered ini;
                 Opts.optionNames := filter (fun y => y ≠ k) (Opts.optionNames opts);
                 Opts.options := delete k (Opts.options opts) |} ini
        | None => ini
        end).
Proof.
  intros [_ Ho]. unfold RemoveOption, HasOption, HasSection.
  destruct (sections ini !! s) as [opts|] eqn:Hs; [|done]. simpl.
  by rewrite (remove_spec (ordered ini) k opts (Ho s opts Hs)).
Qed.

Lemma section_or_new_timeline t ini fS fO s :
  history_ok t ini fS fO ->
  timeline t (Opts.optionNames (section_or_new s ini))
           (dom (Opts.options (section_or_new s ini))) (fO s).
Proof.
  intros (_ & _ & _ & HO & Habs). unfold section_or_new.
  destruct (sections ini !! s) as [opts|] eqn:Hs; simpl.
  - by apply HO.
  - rewrite dom_empty_L. apply timeline_empty. intros k. by apply Habs.
Qed.

Lemma dom_insert_present {V} (m : gmap string V) s v :
  is_Some (m !! s) -> dom (<[s := v]> m) = dom m.
Proof.
  intros Hs%elem_of_dom. rewrite dom_insert_L. apply set_eq. intros x.
  rewrite elem_of_union, elem_of_singleton. split; [intros [->|]; done|by right].
Qed.

(** The section list after a call that adds the section [a] when it is
    missing. *)
Lemma timeline_add_section t ini fS fO a (f' : string -> option nat) V
    (v : V) (m : gmap string V) :
  history_ok t ini fS fO ->
  dom m = dom (sections ini) ->
  (forall x, f' x = born_step (if decide (a = x) then Some true else None) t (fS x)) ->
  timeline (S t)
    (if ordered ini && negb (HasSection a ini)
     then sectionNames ini ++ [a] else sectionNames ini)
    (dom (<[a := v]> m)) f'.
Proof.
  intros (Hb & [Hn _] & HS & _) Hm Hf. rewrite Hb in *. simpl.
  rewrite dom_insert_L, Hm.
  pose proof (timeline_insert t _ _ fS f' a Hf Hn HS) as H.
  destruct (HasSection a ini) eqn:He; simpl.
  - apply HasSection_dom in He. by rewrite decide_True in H.
  - rewrite decide_False in H; [done|].
    rewrite <- HasSection_dom. by rewrite He.
Qed.

Lemma history_step t ini fS fO c :
  history_ok t ini fS fO ->
  exists ini',
    do_call c ini = Some ini' /\
    history_ok (S t) ini'
      (fun s => born_step (section_event c s) t (fS s))
      (fun s k => born_step (option_event c s k) t (fO s k)).
Proof.
  intros Hh. pose proof Hh as (Hb & Hok & HS & HO & Habs).
  destruct (do_call_ok c ini Hok) as (ini' & Hrun & Hb' & Hok').
  exists ini'. split; [done|]. rewrite Hb in Hb'.
  split; [done|]. split; [done|].
  destruct c as [a|a k v|a|a k]; simpl in *.
  - (* AddSection *)
    injection Hrun as <-. rewrite AddSection_spec in *. simpl in *.
    split; [|split].
    + by apply (timeline_add_section t ini fS fO).
    + intros s opts. destruct (decide (a = s)) as [->|Hs].
      * rewrite lookup_insert_eq. intros [= <-].
        eapply timeline_keep; [|exact (section_or_new_timeline t ini fS fO _ Hh)]. done.
      * rewrite lookup_insert_ne by done. intros Hl.
        eapply timeline_keep; [|by apply HO]. done.
    + intros s k Hs. apply lookup_insert_None in Hs as [Hs _]. by apply Habs.
  - (* AddOption *)
    injection Hrun as <-. rewrite AddOption_spec in *. simpl in *.
    split; [|split].
    + by apply (timeline_add_section t ini fS fO).
    + intros s opts. destruct (decide (a = s)) as [->|Hs].
      * rewrite lookup_insert_eq. intros [= <-]. simpl.
        pose proof (section_or_new_ok s ini Hok) as [Hbo Hno].
        rewrite Hb in Hbo, Hno. rewrite Hbo, dom_insert_L.
        pose proof (timeline_insert t
                      (Opts.optionNames (section_or_new s ini))
                      (dom (Opts.options (section_or_new s ini))) (fO s)
                      (fun k' => born_step (option_event (CallAddOption s k v) s k')
                                           t (fO s k')) k) as H.
        simpl in H.
        destruct (Opts.exist k (section_or_new s ini)) eqn:He; simpl.
        -- apply exist_dom in He. rewrite decide_True in H by done.
           apply H; [|done|exact (section_or_new_timeline t ini fS fO _ Hh)].
           intros x. destruct (decide (k = x)) as [->|Hx].
           ++ by rewrite decide_True.
           ++ rewrite decide_False; [done|]. by intros [_ ?].
        -- rewrite decide_False in H
             by (rewrite <- exist_dom; by rewrite He).
           apply H; [|done|exact (section_or_new_timeline t ini fS fO _ Hh)].
           intros x. destruct (decide (k = x)) as [->|Hx].
           ++ by rewrite decide_True.
           ++ rewrite decide_False; [done|]. by intros [_ ?].
      * rewrite lookup_insert_ne by done. intros Hl.
        eapply timeline_keep; [|by apply HO].
        intros x. simpl. rewrite decide_False; [done|]. by intros [? _].
    + intros s k' Hs. apply lookup_insert_None in Hs as [Hs Hne].
      rewrite decide_False by (by intros [? _]). by apply Habs.
  - (* RemoveSection *)
    rewrite RemoveSection_spec in Hrun by done. injection Hrun as <-.
    simpl in *. split; [|split].
    + rewrite dom_delete_L. by apply (timeline_remove t _ _ fS).
    + intros s opts [Hs Hl]%lookup_delete_Some.
      eapply timeline_keep; [|by apply HO].
      intros x. simpl. by rewrite decide_False.
    + intros s k Hs. destruct (decide (a = s)) as [->|Hne]; [done|].
      rewrite lookup_delete_ne in Hs by done. by apply Habs.
  - (* RemoveOption *)
    rewrite RemoveOption_spec in Hrun by done. injection Hrun as <-.
    destruct (sections ini !! a) as [opts0|] eqn:Ha; simpl.
    + split; [|split].
      * rewrite dom_insert_present by (by eexists).
        eapply timeline_keep; [|done]. done.
      * intros s opts. destruct (decide (a = s)) as [->|Hs].
        -- rewrite lookup_insert_eq. intros [= <-]. simpl.
           rewrite dom_delete_L. apply (timeline_remove t _ _ (fO s)); [|by apply HO].
           intros x. destruct (decide (k = x)) as [->|Hx].
           ++ by rewrite decide_True.
           ++ rewrite decide_False; [done|]. by intros [_ ?].
        -- rewrite lookup_insert_ne by done. intros Hl.
           eapply timeline_keep; [|by apply HO].
           intros x. simpl. rewrite decide_False; [done|]. by intros [? _].
      * intros s k' Hs. apply lookup_insert_None in Hs as [Hs Hne].
        rewrite decide_False by (by intros [? _]). by apply Habs.
    + split; [|split].
      * eapply timeline_keep; [|done]. done.
      * intros s opts Hl. eapply timeline_keep; [|by apply HO].
        intros x. simpl. destruct (decide (a = s ∧ k = x)) as [[-> _]|]; [|done].
        by rewrite Ha in Hl.
      * intros s k' Hs. rewrite Habs by done. by destruct (decide _).
Qed.

Lemma history_run cs t ini fS fO :
  history_ok t ini fS fO ->
  exists ini',
    do_calls cs ini = Some ini' /\
    history_ok (t + length cs) ini'
      (fun s => born ((fun c => section_event c s) <$> cs) t (fS s))
      (fun s k => born ((fun c => option_event c s k) <$> cs) t (fO s k)).
Proof.
  revert t ini fS fO. induction cs as [|c cs IH]; intros t ini fS fO Hh.
  - exists ini. split; [done|]. simpl. by rewrite Nat.add_0_r.
  - destruct (history_step t ini fS fO c Hh) as (ini1 & Hc & Hh1).
    destruct (IH _ _ _ _ Hh1) as (ini' & Hcs & Hh').
    exists ini'. split; [simpl; by rewrite Hc|].
    simpl. by rewrite <- Nat.add_succ_comm.
Qed.

Lemma history_start : history_ok 0 (NewINI true) (fun _ => None) (fun _ _ => None).
Proof.
  split; [done|]. split; [apply NewINI_ok|]. simpl.
  split; [|split].
  - rewrite dom_empty_L. by apply timeline_empty.
  - intros s opts. by rewrite lookup_empty.
  - done.
Qed.

(** ** Calls about other names *)

Lemma filter_ne_snoc (a : string) (l : list string) :
  filter (fun y => y ≠ a) (l ++ [a]) = filter (fun y => y ≠ a) l.
Proof.
  rewrite filter_app, filter_cons_False by (intros H; by apply H).
  by rewrite filter_nil, app_nil_r.
Qed.

Lemma filter_ne_idemp (a : string) (l : list string) :
  filter (fun y => y ≠ a) (filter (fun y => y ≠ a) l) = filter (fun y => y ≠ a) l.
Proof. by apply list_filter_filter_l. Qed.

Lemma call_sections a c ini ini' :
  INI_ok ini -> do_call c ini = Some ini' -> call_section c = a ->
  filter (fun y => y ≠ a) (sectionNames ini') =
  filter (fun y => y ≠ a) (sectionNames ini).
Proof.
  intros Hok Hc <-. destruct c as [a|a k v|a|a k]; simpl in *.
  - injection Hc as <-. rewrite AddSection_spec. simpl.
    destruct (_ && _); [apply filter_ne_snoc|done].
  - injection Hc as <-. rewrite AddOption_spec. simpl.
    destruct (_ && _); [apply filter_ne_snoc|done].
  - rewrite RemoveSection_spec in Hc by done. injection Hc as <-. simpl.
    apply filter_ne_idemp.
  - rewrite RemoveOption_spec in Hc by done. injection Hc as <-.
    by destruct (sections ini !! a).
Qed.

Lemma Options_ext r s ini ini' :
  sections ini' !! s = sections ini !! s -> Options r s ini' = Options r s ini.
Proof. unfold Options, HasSection. by intros ->. Qed.

Lemma call_other_section r s c ini ini' :
  INI_ok ini -> do_call c ini = Some ini' -> call_section c ≠ s ->
  Options r s ini' = Options r s ini.
Proof.
  intros Hok Hc Hs. apply Options_ext.
  destruct c as [a|a k v|a|a k]; simpl in *.
  - injection Hc as <-. rewrite AddSection_spec. simpl.
    by rewrite lookup_insert_ne.
  - injection Hc as <-. rewrite AddOption_spec. simpl.
    by rewrite lookup_insert_ne.
  - rewrite RemoveSection_spec in Hc by done. injection Hc as <-. simpl.
    by rewrite lookup_delete_ne.
  - rewrite RemoveOption_spec in Hc by done. injection Hc as <-.
    destruct (sections ini !! a); [|done]. simpl.
    by rewrite lookup_insert_ne.
Qed.

Lemma call_options r s c k ini ini' :
  INI_ok ini -> ordered ini = true ->
  do_call c ini = Some ini' -> call_option c = Some k ->
  filter (fun y => y ≠ k) (Options r s ini') =
  filter (fun y => y ≠ k) (Options r s ini).
Proof.
  intros Hok Hb Hc Hk.
  destruct (decide (call_section c = s)) as [Hs|Hs];
    [|by rewrite (call_other_section r s c ini ini')].
  destruct c as [a|a k' v|a|a k']; simpl in *; try done.
  - injection Hk as ->. injection Hc as <-. subst a.
    erewrite Options_lookup by apply AddOption_lookup.
    pose proof (section_or_new_ok s ini Hok) as [Hbo _]. rewrite Hb in Hbo.
    unfold Opts.getOptions. simpl. rewrite Hbo. simpl.
    unfold Options, HasSection, section_or_new in *.
    destruct (sections ini !! s) as [opts|] eqn:Hl; simpl in *.
    + unfold Opts.getOptions. rewrite Hbo. simpl.
      destruct (negb _); [apply filter_ne_snoc|done].
    + destruct (negb _); [|done].
      by rewrite filter_cons_False by (intros H; by apply H).
  - injection Hk as ->. subst a.
    rewrite RemoveOption_spec in Hc by done. injection Hc as <-.
    destruct (sections ini !! s) as [opts|] eqn:Hl; [|done].
    erewrite (Options_lookup r s (set_section _ _ _))
      by (simpl; apply lookup_insert_eq).
    rewrite (Options_lookup r s ini opts Hl).
    destruct Hok as [_ Ho]. destruct (Ho s opts Hl) as [Hbo _].
    unfold Opts.getOptions. simpl. rewrite Hbo, Hb. simpl.
    apply filter_ne_idemp.
Qed.

Lemma calls_sections (xs : list string) cs ini ini' :
  INI_ok ini -> do_calls cs ini = Some ini' ->
  Forall (fun c => call_section c ∈ xs) cs ->
  filter (fun y => y ∉ xs) (sectionNames ini') =
  filter (fun y => y ∉ xs) (sectionNames ini).
Proof.
  intros Hok Hcs Hall. revert ini Hok Hcs.
  induction Hall as [|c cs Hc Hall IH]; intros ini Hok Hcs; simpl in *.
  - by injection Hcs as <-.
  - destruct (do_call_ok c ini Hok) as (ini1 & Hc1 & Hb1 & Hok1).
    rewrite Hc1 in Hcs. simpl in Hcs. rewrite (IH ini1 Hok1 Hcs).
    rewrite <- (list_filter_filter_l (fun y => y ∉ xs)
                  (fun y => y ≠ call_section c) (sectionNames ini1))
      by (intros x Hx ->; done).
    rewrite (call_sections _ c ini ini1) by done.
    apply list_filter_filter_l. by intros x Hx ->.
Qed.

Lemma calls_options r s (ys : list string) cs ini ini' :
  INI_ok ini -> ordered ini = true -> do_calls cs ini = Some ini' ->
  Forall (fun c => call_section c ≠ s \/
                   exists k, call_option c = Some k /\ k ∈ ys) cs ->
  filter (fun y => y ∉ ys) (Options r s ini') =
  filter (fun y => y ∉ ys) (Options r s ini).
Proof.
  intros Hok Hb Hcs Hall. revert ini Hok Hb Hcs.
  induction Hall as [|c cs Hc Hall IH]; intros ini Hok Hb Hcs; simpl in *.
  - by injection Hcs as <-.
  - destruct (do_call_ok c ini Hok) as (ini1 & Hc1 & Hb1 & Hok1).
    rewrite Hc1 in Hcs. simpl in Hcs.
    rewrite (IH ini1 Hok1) by (done || congruence).
    destruct Hc as [Hs|(k & Hk & Hin)].
    + by rewrite (call_other_section r s c ini ini1).
    + rewrite <- (list_filter_filter_l (fun y => y ∉ ys)
                    (fun y => y ≠ k) (Options r s ini1))
        by (intros x Hx ->; done).
      rewrite (call_options r s c k ini ini1) by done.
      apply list_filter_filter_l. by intros x Hx ->.
Qed.

Lemma Options_timeline r t ini fS fO s :
  history_ok t ini fS fO ->
  timeline t (Options r s ini) (list_to_set (Options r s ini)) (fO s).
Proof.
  intros (Hb & [_ Ho] & _ & HO & Habs). unfold Options, HasSection.
  destruct (sections ini !! s) as [opts|] eqn:Hs; simpl.
  - destruct (Ho s opts Hs) as [Hbo Hn]. rewrite Hb in *.
    destruct Hn as [Hset _]. unfold Opts.getOptions. rewrite Hbo. simpl. rewrite Hset. by apply HO.
  - apply timeline_empty. intros k. by apply Habs.
Qed.

(** C4: in ordered mode, after any calls [cs] on a new document,
    [Sections] lists the sections that are there, each before those that
    were inserted after it, and [Options] does so for the options of a
    section; and further calls [cs'] that name other sections (those of
    [xs]) or other options (those of [ys]) leave the lists of the
    remaining names as they were. *)
Theorem C4_insertion_order cs cs' r (xs ys : list string) s :
  exists ini ini',
    do_calls cs (NewINI true) = Some ini /\
    do_calls cs' ini = Some ini' /\
    StronglySorted (inserted_before (section_born cs)) (Sections r ini) /\
    (forall x, x ∈ Sections r ini <-> is_Some (section_born cs x)) /\
    StronglySorted (inserted_before (option_born cs s)) (Options r s ini) /\
    (forall k, k ∈ Options r s ini <-> is_Some (option_born cs s k)) /\
    (Forall (fun c => call_section c ∈ xs) cs' ->
     filter (fun y => y ∉ xs) (Sections r ini') =
     filter (fun y => y ∉ xs) (Sections r ini)) /\
    (Forall (fun c => call_section c ≠ s \/
                      exists k, call_option c = Some k /\ k ∈ ys) cs' ->
     filter (fun y => y ∉ ys) (Options r s ini') =
     filter (fun y => y ∉ ys) (Options r s ini)).
Proof.
  destruct (history_run cs 0 _ _ _ history_start) as (ini & Hcs & Hh).
  pose proof Hh as (Hb & Hok & (HSk & _ & HSs) & _).
  destruct (do_calls_ok cs' ini Hok) as (ini' & Hcs' & Hb' & Hok').
  rewrite Hb in Hb'.
  pose proof (Options_timeline r _ _ _ _ s Hh) as (HOk & _ & HOs).
  exists ini, ini'. unfold Sections. rewrite Hb, Hb'. simpl.
  split; [done|]. split; [done|]. split; [exact HSs|]. split; [|split; [exact HOs|split; [|split]]].
  - intros x. rewrite (HSk x). destruct Hok as [Hn _]. rewrite Hb in Hn.
    destruct Hn as [<- _]. by rewrite elem_of_list_to_set.
  - intros k. rewrite (HOk k). by rewrite elem_of_list_to_set.
  - by apply calls_sections.
  - by apply calls_options.
Qed.

Lemma C4_insertion_order_witness :
  let cs := [CallAddSection "d"; CallAddSection "a"; CallAddOption "b" "x" "1";
             CallAddOption "b" "y" "2"; CallAddSection "c"] in
  let cs' := [CallRemoveSection "a"; CallAddOption "b" "z" "3";
              CallAddSection "a"; CallRemoveOption "b" "z"] in
  exists ini ini',
    do_calls cs (NewINI true) = Some ini /\
    do_calls cs' ini = Some ini' /\
    Sections key_order ini = ["d"; "a"; "b"; "c"] /\
    Sections key_order ini' = ["d"; "b"; "c"; "a"] /\
    Forall (fun c => call_section c ∈ ["a"; "b"]) cs' /\
    filter (fun y => y ∉ ["a"; "b"]) (Sections key_order ini') =
    filter (fun y => y ∉ ["a"; "b"]) (Sections key_order ini) /\
    Forall (fun c => call_section c ≠ "b" \/
                     exists k, call_option c = Some k /\ k ∈ ["z"]) cs' /\
    filter (fun y => y ∉ ["z"]) (Options key_order "b" ini') =
    filter (fun y => y ∉ ["z"]) (Options key_order "b" ini).
Proof.
  intros cs cs'.
  destruct (C4_insertion_order cs cs' key_order ["a"; "b"] ["z"] "b")
    as (ini & ini' & Hcs & Hcs' & _ & _ & _ & _ & HS & HO).
  exists ini, ini'. split; [done|]. split; [done|].
  assert (Some ini = do_calls cs (NewINI true)) as Hi by done.
  vm_compute in Hi. injection Hi as Hi.
  assert (Some ini' = do_calls cs' ini) as Hi' by done.
  rewrite Hi in Hi'. vm_compute in Hi'. injection Hi' as Hi'.
  split; [by rewrite Hi|]. split; [by rewrite Hi'|].
  assert (Forall (fun c => call_section c ∈ ["a"; "b"]) cs') as H1
    by (repeat constructor).
  assert (Forall (fun c => call_section c ≠ "b" \/
                     exists k, call_option c = Some k /\ k ∈ ["z"]) cs') as H2.
  { repeat apply Forall_cons_2; try apply Forall_nil_2; simpl.
    - by left.
    - right. exists "z". split; [done|]. by left.
    - by left.
    - right. exists "z". split; [done|]. by left. }
  split; [exact H1|]. split; [exact (HS H1)|]. split; [exact H2|exact (HO H2)].
Defined.

(** ** Trimming *)

Lemma length_app_string s t :
  String.length (s +:+ t) = (String.length s + String.length t)%nat.
Proof. induction s as [|c s IH]; simpl; [done|]. by rewrite IH. Qed.

Lemma rev_append_app s acc : Text.rev_append s acc = Text.rev s +:+ acc.
Proof.
  unfold Text.rev. revert acc. induction s as [|c s IH]; intros acc; simpl.
  - done.
  - rewrite (IH (String c acc)), (IH (String c "")).
    by rewrite app_assoc'.
Qed.

Lemma rev_cons c s : Text.rev (String c s) = Text.rev s +:+ String c "".
Proof. unfold Text.rev at 1. simpl. apply rev_append_app. Qed.

Lemma rev_app s t : Text.rev (s +:+ t) = Text.rev t +:+ Text.rev s.
Proof.
  induction s as [|c s IH].
  - rewrite app_empty_l. change (Text.rev "") with "". by rewrite app_empty_r.
  - by rewrite app_cons, !rev_cons, IH, app_assoc'.
Qed.

Lemma rev_rev s : Text.rev (Text.rev s) = s.
Proof.
  induction s as [|c s IH]; [done|].
  rewrite rev_cons, rev_app, IH. done.
Qed.

Lemma rev_inj s t : Text.rev s = Text.rev t -> s = t.
Proof. intros H. by rewrite <- (rev_rev s), H, rev_rev. Qed.

Section Trim.
Variable sp1 : ascii -> bool.
Variable sp2 : ascii -> ascii -> bool.
Variable sp3 : ascii -> ascii -> ascii -> bool.

Local Abbreviation trim := (Text.trim sp1 sp2 sp3).

Lemma trim_length s : (String.length (trim s) <= String.length s)%nat.
Proof.
  assert (forall n s, (String.length s <= n)%nat ->
                      (String.length (trim s) <= String.length s)%nat) as H.
  { clear s. induction n as [|n IH]; intros s Hn.
    - destruct s; [done|simpl in Hn; lia].
    - destruct s as [|c1 s1]; [done|]. simpl in Hn. simpl.
      destruct (sp1 c1).
      { pose proof (IH s1 ltac:(lia)). lia. }
      destruct s1 as [|c2 s2]; [done|]. simpl in Hn.
      destruct (sp2 c1 c2).
      { pose proof (IH s2 ltac:(lia)). simpl. lia. }
      destruct s2 as [|c3 s3]; [done|]. simpl in Hn.
      destruct (sp3 c1 c2 c3); [|done].
      pose proof (IH s3 ltac:(lia)). simpl. lia. }
  by apply (H (String.length s)).
Qed.

(** A string that [trim] leaves alone does not start with a run that
    is dropped. *)
Lemma trim_fixed1 c1 s1 :
  trim (String c1 s1) = String c1 s1 -> sp1 c1 = false.
Proof.
  simpl. destruct (sp1 c1); [|done]. intros H.
  pose proof (trim_length s1) as Hl. rewrite H in Hl. simpl in Hl. lia.
Qed.

Lemma trim_fixed2 c1 c2 s2 :
  trim (String c1 (String c2 s2)) = String c1 (String c2 s2) ->
  sp2 c1 c2 = false.
Proof.
  intros H. pose proof (trim_fixed1 _ _ H) as H1. simpl in H.
  rewrite H1 in H. destruct (sp2 c1 c2); [|done].
  pose proof (trim_length s2) as Hl. rewrite H in Hl. simpl in Hl. lia.
Qed.

Lemma trim_fixed3 c1 c2 c3 s3 :
  trim (String c1 (String c2 (String c3 s3))) =
  String c1 (String c2 (String c3 s3)) ->
  sp3 c1 c2 c3 = false.
Proof.
  intros H. pose proof (trim_fixed1 _ _ H) as H1.
  pose proof (trim_fixed2 _ _ _ H) as H2. simpl in H.
  rewrite H1, H2 in H. destruct (sp3 c1 c2 c3); [|done].
  pose proof (trim_length s3) as Hl. rewrite H in Hl. simpl in Hl. lia.
Qed.

(** It stays alone when a byte [d] follows that belongs to no run of
    two or three bytes. *)
Lemma trim_fixed_app x d rest :
  (forall a, sp2 a d = false) ->
  (forall a b, sp3 a d b = false) ->
  (forall a b, sp3 a b d = false) ->
  trim x = x -> x ≠ "" ->
  trim (x +:+ String d rest) = x +:+ String d rest.
Proof.
  intros Hd2 Hd3 Hd3' Hx Hne.
  destruct x as [|c1 [|c2 [|c3 x3]]]; [done|..].
  - simpl. rewrite (trim_fixed1 _ _ Hx), Hd2.
    destruct rest; [done|]. by rewrite Hd3.
  - simpl. by rewrite (trim_fixed1 _ _ Hx), (trim_fixed2 _ _ _ Hx), Hd3'.
  - simpl. by rewrite (trim_fixed1 _ _ Hx), (trim_fixed2 _ _ _ Hx),
      (trim_fixed3 _ _ _ _ Hx).
Qed.

Lemma trim_keep c1 s1 :
  sp1 c1 = false -> (forall a, sp2 c1 a = false) ->
  (forall a b, sp3 c1 a b = false) ->
  trim (String c1 s1) = String c1 s1.
Proof.
  intros H1 H2 H3. simpl. rewrite H1.
  destruct s1 as [|c2 [|c3 s3]]; [done|by rewrite H2|by rewrite H2, H3].
Qed.

Lemma trim_drop1 c1 s1 : sp1 c1 = true -> trim (String c1 s1) = trim s1.
Proof. intros H. simpl. by rewrite H. Qed.
End Trim.

Ltac bytes :=
  intros; cbv beta; try unfold Text.space2; try unfold Text.space3; simpl;
  rewrite ?andb_false_r; reflexivity.

Lemma TrimLeft_length s : (String.length (Text.TrimLeft s) <= String.length s)%nat.
Proof. apply trim_length. Qed.

Lemma rev_length s : String.length (Text.rev s) = String.length s.
Proof.
  induction s as [|c s IH]; [done|].
  rewrite rev_cons, length_app_string, IH. simpl. lia.
Qed.

Lemma TrimRight_length s : (String.length (Text.TrimRight s) <= String.length s)%nat.
Proof.
  unfold Text.TrimRight. rewrite rev_length.
  etrans; [apply trim_length|]. by rewrite rev_length.
Qed.

(** The string that [trim] returns is the end of its argument. *)
Lemma trim_suffix sp1 sp2 sp3 s :
  exists p, s = p +:+ Text.trim sp1 sp2 sp3 s.
Proof.
  assert (forall n s, (String.length s <= n)%nat ->
             exists p, s = p +:+ Text.trim sp1 sp2 sp3 s) as H.
  { clear s. induction n as [|n IH]; intros s Hn.
    - destruct s; [by exists ""|simpl in Hn; lia].
    - destruct s as [|c1 s1]; [by exists ""|]. simpl in Hn. simpl.
      destruct (sp1 c1).
      { destruct (IH s1 ltac:(lia)) as [p Hp].
        exists (String c1 p). rewrite ?app_cons. by rewrite <- Hp. }
      destruct s1 as [|c2 s2]; [by exists ""|]. simpl in Hn.
      destruct (sp2 c1 c2).
      { destruct (IH s2 ltac:(lia)) as [p Hp].
        exists (String c1 (String c2 p)). rewrite ?app_cons. by rewrite <- Hp. }
      destruct s2 as [|c3 s3]; [by exists ""|]. simpl in Hn.
      destruct (sp3 c1 c2 c3); [|by exists ""].
      destruct (IH s3 ltac:(lia)) as [p Hp].
      exists (String c1 (String c2 (String c3 p))). rewrite ?app_cons. by rewrite <- Hp. }
  by apply (H (String.length s)).
Qed.

Lemma app_length_eq p s : String.length (p +:+ s) = String.length s -> p = "".
Proof.
  rewrite length_app_string. destruct p; [done|]. simpl. lia.
Qed.

(** A string that [TrimSpace] leaves alone is left alone from both
    ends. *)
Lemma TrimSpace_fixed s :
  Text.TrimSpace s = s -> Text.TrimLeft s = s /\ Text.TrimRight s = s.
Proof.
  unfold Text.TrimSpace. intros H.
  assert (Text.TrimLeft s = s) as Hl.
  { destruct (trim_suffix Text.space1 Text.space2 Text.space3 s) as [p Hp].
    fold (Text.TrimLeft s) in Hp.
    pose proof (TrimRight_length (Text.TrimLeft s)) as H1.
    rewrite H in H1.
    assert (p = "") as ->; [|done].
    apply (app_length_eq p (Text.TrimLeft s)). rewrite <- Hp.
    pose proof (TrimLeft_length s). lia. }
  split; [done|]. by rewrite Hl in H.
Qed.

Lemma TrimLeft_fixed_app k rest :
  Text.TrimLeft k = k -> k ≠ "" ->
  Text.TrimLeft (k +:+ String " " rest) = k +:+ String " " rest.
Proof. apply trim_fixed_app; bytes. Qed.

Lemma TrimLeft_space v : Text.TrimLeft (String " " v) = Text.TrimLeft v.
Proof. reflexivity. Qed.

Lemma TrimRight_drop c s :
  Text.space1 c = true -> Text.TrimRight (s +:+ String c "") = Text.TrimRight s.
Proof.
  intros Hc. unfold Text.TrimRight. rewrite rev_app.
  change (Text.rev (String c "")) with (String c "").
  rewrite app_cons, app_empty_l. by rewrite trim_drop1.
Qed.

Lemma TrimRight_keep c s :
  Text.space1 c = false ->
  (forall a, Text.space2 a c = false) ->
  (forall a b, Text.space3 a b c = false) ->
  Text.TrimRight (s +:+ String c "") = s +:+ String c "".
Proof.
  intros H1 H2 H3. unfold Text.TrimRight. rewrite rev_app.
  change (Text.rev (String c "")) with (String c "").
  rewrite app_cons, app_empty_l.
  rewrite trim_keep by (done || (intros; apply H3)).
  by rewrite rev_cons, rev_rev.
Qed.

Lemma TrimRight_fixed_app p v :
  Text.TrimRight v = v -> v ≠ "" ->
  Text.TrimRight (p +:+ String " " v) = p +:+ String " " v.
Proof.
  intros Hv Hne. unfold Text.TrimRight in *.
  rewrite rev_app, rev_cons, app_assoc', app_cons, app_empty_l.
  rewrite trim_fixed_app.
  2-4: bytes.
  - by rewrite rev_app, rev_cons, !rev_rev, app_assoc'.
  - apply rev_inj. by rewrite Hv, rev_rev.
  - intros H. apply Hne. apply rev_inj. by rewrite H.
Qed.

Lemma is_empty_false s : Text.is_empty s = false <-> s ≠ "".
Proof. by destruct s. Qed.

Lemma contains_app c s t :
  Text.contains c (s +:+ t) = Text.contains c s || Text.contains c t.
Proof.
  induction s as [|d s IH]; [done|]. rewrite app_cons. simpl.
  by destruct (Ascii.eqb d c).
Qed.

Lemma cut_None c s : Text.contains c s = false -> Text.cut c s = None.
Proof.
  induction s as [|d s IH]; [done|]. simpl.
  destruct (Ascii.eqb d c); [done|]. intros H. by rewrite IH.
Qed.

Lemma cut_app c s t :
  Text.contains c s = false -> Text.cut c (s +:+ String c t) = Some (s, t).
Proof.
  induction s as [|d s IH]; simpl.
  - by rewrite Ascii.eqb_refl.
  - destruct (Ascii.eqb d c); [done|]. intros H. by rewrite IH.
Qed.

Lemma NewReader_line l rest :
  Text.contains LF l = false ->
  NewReader (l +:+ String LF rest) = (l +:+ String LF "", None) :: NewReader rest.
Proof.
  induction l as [|c l IH]; simpl.
  - done.
  - destruct (Ascii.eqb c LF); [done|]. intros H. by rewrite IH.
Qed.

Lemma plain_spec s :
  plain s = true ->
  Text.contains "=" s = false /\ Text.contains LF s = false.
Proof.
  unfold plain. intros H.
  destruct (Text.contains "=" s), (Text.contains LF s); try done.
  - by rewrite !andb_false_r in H.
Qed.

Lemma trimmed_spec s : trimmed s = true -> Text.TrimSpace s = s.
Proof. unfold trimmed. by intros ?%String.eqb_eq. Qed.

(** The line that [Write] prints for an option is read back as that
    option. *)
Lemma parse_line_option k v section lineNum ini :
  plain k = true -> trimmed k = true -> nonempty k = true ->
  comment_start k = false ->
  plain v = true -> trimmed v = true -> nonempty v = true ->
  parse_line (Sprintln [k; "="; v], None) section lineNum ini =
  Continue false section (int_wrap (lineNum + 1)) (AddOption section k v ini).2.
Proof.
  intros [Hk1 Hk2]%plain_spec [Hkl Hkr]%trimmed_spec%TrimSpace_fixed
    Hk3%negb_true_iff%is_empty_false Hk4
    [Hv1 Hv2]%plain_spec Hvt%trimmed_spec Hv3%negb_true_iff%is_empty_false.
  pose proof (TrimSpace_fixed v Hvt) as [Hvl Hvr].
  assert (Text.TrimSpace (Sprintln [k; "="; v]) = k +:+ " = " +:+ v) as Hline.
  { unfold Text.TrimSpace. simpl.
    change (k +:+ " " +:+ "=" +:+ " " +:+ v +:+ String LF "")
      with (k +:+ String " " ("= " +:+ v +:+ String LF "")).
    rewrite TrimLeft_fixed_app by done.
    replace (k +:+ String " " ("= " +:+ v +:+ String LF ""))
      with (((k +:+ " =") +:+ String " " v) +:+ String LF "")
      by (by rewrite !app_assoc').
    rewrite TrimRight_drop by done.
    rewrite TrimRight_fixed_app by done. by rewrite !app_assoc'. }
  unfold parse_line. rewrite Hline.
  assert (Text.is_empty (k +:+ " = " +:+ v) = false) as ->
    by (by destruct k).
  assert (Text.byte0 (k +:+ " = " +:+ v) = Text.byte0 k) as ->
    by (by destruct k).
  unfold comment_start in Hk4. rewrite Hk4.
  unfold assignRegex.
  replace (k +:+ " = " +:+ v) with ((k +:+ " ") +:+ String "=" (" " +:+ v))
    by (by rewrite !app_assoc').
  rewrite cut_app by (by rewrite contains_app, Hk1).
  assert (Text.is_empty (k +:+ " ") = false) as -> by (by destruct k).
  rewrite contains_app, Hv2. simpl.
  assert (Text.TrimSpace (k +:+ " ") = k) as ->.
  { unfold Text.TrimSpace.
    change (k +:+ " ") with (k +:+ String " " "").
    rewrite TrimLeft_fixed_app by done. by rewrite TrimRight_drop. }
  assert (Text.TrimSpace (" " +:+ v) = v) as -> by done.
  done.
Qed.

Lemma parse_line_header s section lineNum ini :
  plain s = true -> trimmed s = true ->
  parse_line (Sprintln ["[" +:+ s +:+ "]"], None) section lineNum ini =
  Continue false s (int_wrap (lineNum + 1)) (AddSection s ini).2.
Proof.
  intros [Hs1 Hs2]%plain_spec Hst%trimmed_spec.
  assert (Text.TrimSpace (Sprintln ["[" +:+ s +:+ "]"]) = "[" +:+ s +:+ "]") as Hline.
  { unfold Text.TrimSpace.
    change (Sprintln ["[" +:+ s +:+ "]"])
      with (String "[" ((s +:+ "]") +:+ String LF "")).
    unfold Text.TrimLeft. rewrite trim_keep by bytes.
    change (String "[" ((s +:+ "]") +:+ String LF ""))
      with ((String "[" s +:+ String "]" "") +:+ String LF "").
    rewrite TrimRight_drop by done.
    rewrite TrimRight_keep by (done || bytes). done. }
  unfold parse_line. rewrite Hline.
  change (Text.is_empty ("[" +:+ s +:+ "]")) with false.
  change (Text.byte0 ("[" +:+ s +:+ "]")) with "["%char. simpl orb.
  cbv iota.
  unfold assignRegex. rewrite cut_None by (by rewrite !contains_app, Hs1).
  rewrite sectionRegex_bracketed, Hs2, Hst. done.
Qed.

Lemma parse_line_blank section lineNum ini :
  parse_line (Sprintln [], None) section lineNum ini =
  Continue false section (int_wrap (lineNum + 1)) ini.
Proof. reflexivity. Qed.

(** ** Writing into a buffer, and reading the lines back *)

Lemma Write_lines {W} `{Writer W} r ini (w : W) :
  (Write r ini w).1 = foldl (fun w a => (Fprintln w a).1) w (doc_lines r ini).
Proof.
  unfold Write, doc_lines. simpl.
  generalize (Sections r ini). intros ss. revert w.
  induction ss as [|s ss IH]; intros w; [done|].
  rewrite fmap_cons, concat_cons, foldl_app. simpl. rewrite IH. f_equal.
  unfold option_lines. rewrite foldl_app, foldl_fmap. simpl. f_equal.
  generalize (Fprintln w ["[" +:+ s +:+ "]"]).1. intros w'.
  generalize (Options r s ini). intros ks. revert w'.
  induction ks as [|k ks IHk]; intros w'; [done|]. simpl.
  rewrite <- IHk. by destruct (GetOption s k ini).
Qed.

Lemma Buffer_lines (b : Buffer) ls :
  contents (foldl (fun w a => (Fprintln w a).1) b ls) = contents b +:+ printed ls.
Proof.
  revert b. induction ls as [|a ls IH]; intros b; simpl.
  - by rewrite app_empty_r.
  - rewrite IH. simpl. by rewrite app_assoc'.
Qed.

Lemma written_printed r ini : written r ini = printed (doc_lines r ini).
Proof. unfold written. by rewrite Write_lines, Buffer_lines. Qed.

Lemma printed_app ls ls' : printed (ls ++ ls') = printed ls +:+ printed ls'.
Proof.
  induction ls as [|a ls IH]; simpl; [done|]. by rewrite IH, app_assoc'.
Qed.

Lemma parse_loop_read line reads section lineNum ini section' ini' :
  parse_line (line, None) section lineNum ini =
    Continue false section' (int_wrap (lineNum + 1)) ini' ->
  parse_loop ((line, None) :: reads) section lineNum ini =
  parse_loop reads section' (int_wrap (lineNum + 1)) ini'.
Proof. intros H. simpl. by rewrite H. Qed.

Lemma parse_option_lines ini s ks rest lineNum d :
  section_texts_ok ini s ks ->
  exists lineNum',
    parse_loop (NewReader (printed (option_lines ini s ks) +:+ rest)) s lineNum d =
    parse_loop (NewReader rest) s lineNum' (replay_options ini s ks d).
Proof.
  revert lineNum d. induction ks as [|k ks IH]; intros lineNum d Hok.
  - by exists lineNum.
  - destruct (Hok k) as (Hk1 & Hk2 & Hk3 & Hk4 & Hv1 & Hv2 & Hv3); [by left|].
    destruct (IH (int_wrap (lineNum + 1))
                 (AddOption s k (GetOption s k ini).1 d).2) as [n' Hn'].
    { intros k' Hk'. apply Hok. by right. }
    exists n'. etrans; [|exact Hn']. unfold option_lines. rewrite fmap_cons.
    simpl printed. rewrite app_assoc'.
    change (Sprintln [k; "="; (GetOption s k ini).1])
      with (k +:+ " " +:+ "=" +:+ " " +:+ (GetOption s k ini).1 +:+ String LF "").
    replace ((k +:+ " " +:+ "=" +:+ " " +:+ (GetOption s k ini).1 +:+ String LF "")
             +:+ printed ((fun k0 => [k0; "="; (GetOption s k0 ini).1]) <$> ks)
             +:+ rest)
      with ((k +:+ " = " +:+ (GetOption s k ini).1)
            +:+ String LF (printed (option_lines ini s ks) +:+ rest))
      by (by rewrite !app_assoc').
    rewrite NewReader_line.
    2: { apply plain_spec in Hk1 as [_ Hk1]. apply plain_spec in Hv1 as [_ Hv1].
         rewrite !contains_app, Hk1, Hv1. done. }
    apply parse_loop_read.
    rewrite <- (parse_line_option k _ s lineNum d) by done.
    f_equal. f_equal. by rewrite !app_assoc'.
Qed.

Lemma app_line l x y : (l +:+ String LF x) +:+ y = l +:+ String LF (x +:+ y).
Proof. by rewrite app_assoc', app_cons. Qed.

Lemma printed_section r ini s rest :
  printed (section_lines r ini s) +:+ rest =
  ("[" +:+ s +:+ "]")
  +:+ String LF (printed (option_lines ini s (Options r s ini)) +:+ String LF rest).
Proof.
  unfold section_lines.
  change (printed (["[" +:+ s +:+ "]"]
                   :: option_lines ini s (Options r s ini) ++ [[]]))
    with ((("[" +:+ s +:+ "]") +:+ String LF "")
          +:+ printed (option_lines ini s (Options r s ini) ++ [[]])).
  rewrite printed_app.
  change (printed [[]]) with (String LF "").
  by rewrite !app_line, ?app_empty_l, app_line, app_empty_l.
Qed.

Lemma parse_doc_lines r ini ss rest section lineNum d :
  (forall s, s ∈ ss ->
     plain s = true /\ trimmed s = true /\
     section_texts_ok ini s (Options r s ini)) ->
  exists section' lineNum',
    parse_loop (NewReader (printed (concat (section_lines r ini <$> ss)) +:+ rest))
               section lineNum d =
    parse_loop (NewReader rest) section' lineNum' (replay r ini ss d).
Proof.
  revert section lineNum d.
  induction ss as [|s ss IH]; intros section lineNum d Hok.
  - by exists section, lineNum.
  - destruct (Hok s) as (Hs1 & Hs2 & Hks); [by left|].
    set (more := printed (concat (section_lines r ini <$> ss)) +:+ rest).
    destruct (parse_option_lines ini s (Options r s ini) (String LF more)
                (int_wrap (lineNum + 1)) (AddSection s d).2 Hks) as [n1 Hn1].
    destruct (IH s (int_wrap (n1 + 1)) (replay_section r ini d s))
      as (section' & n' & Hn').
    { intros s' Hs'. apply Hok. by right. }
    exists section', n'. etrans; [|exact Hn'].
    rewrite fmap_cons, concat_cons, printed_app, app_assoc'.
    fold more. rewrite printed_section.
    rewrite NewReader_line.
    2: { apply plain_spec in Hs1 as [_ Hs1]. by rewrite !contains_app, Hs1. }
    rewrite (parse_loop_read _ _ _ _ _ s (AddSection s d).2)
      by (by apply parse_line_header).
    rewrite Hn1.
    change (String LF more) with ("" +:+ String LF more).
    rewrite NewReader_line by done.
    by rewrite (parse_loop_read _ _ _ _ _ s (replay_section r ini d s)).
Qed.

Lemma parse_written r ini b :
  (forall s, s ∈ Sections r ini ->
     plain s = true /\ trimmed s = true /\
     section_texts_ok ini s (Options r s ini)) ->
  Read (NewReader (written r ini)) b =
  (replay r ini (Sections r ini) (NewINI b), None).
Proof.
  intros Hok. unfold Read, parse. rewrite written_printed. unfold doc_lines.
  destruct (parse_doc_lines r ini (Sections r ini) "" "" 0 (NewINI b) Hok)
    as (section' & n' & Hn').
  rewrite app_empty_r in Hn'. by rewrite Hn'.
Qed.

(** ** The calls of [parse] rebuild the document *)

Lemma foldl_insert_lookup {V} (f : string -> V) (ks : list string)
    (m : gmap string V) (k : string) :
  foldl (fun m k => <[k := f k]> m) m ks !! k =
  if decide (k ∈ ks) then Some (f k) else m !! k.
Proof.
  revert m. induction ks as [|a ks IH]; intros m; cbn [foldl].
  - destruct (decide (k ∈ [])) as [H|H]; [by apply elem_of_nil in H|done].
  - rewrite IH. destruct (decide (k ∈ ks)) as [Hk|Hk].
    + by rewrite decide_True by (by right).
    + destruct (decide (a = k)) as [->|Ha].
      * rewrite decide_True by (by left). apply lookup_insert_eq.
      * rewrite decide_False by (by intros [->|]%elem_of_cons).
        by apply lookup_insert_ne.
Qed.

Lemma set_section_twice s o1 o2 d :
  set_section s o2 (set_section s o1 d) = set_section s o2 d.
Proof. unfold set_section. simpl. by rewrite insert_insert_eq. Qed.

Lemma AddOption_present s k v d opts :
  sections d !! s = Some opts ->
  (AddOption s k v d).2 = set_section s (Opts.add k v opts).2 d.
Proof.
  intros Hs. rewrite AddOption_spec. unfold section_or_new, HasSection.
  rewrite Hs. simpl. by rewrite andb_false_r.
Qed.

Lemma replay_options_spec ini s ks d opts :
  sections d !! s = Some opts ->
  NoDup ks ->
  (forall k, k ∈ ks -> Opts.options opts !! k = None) ->
  replay_options ini s ks d =
  set_section s
    {| Opts.ordered := Opts.ordered opts;
       Opts.optionNames := if Opts.ordered opts
                           then Opts.optionNames opts ++ ks
                           else Opts.optionNames opts;
       Opts.options := foldl (fun m k => <[k := (GetOption s k ini).1]> m)
                             (Opts.options opts) ks |} d.
Proof.
  intros Hs Hnd. revert d opts Hs.
  induction Hnd as [|k ks Hk Hnd IH]; intros d opts Hs Hnew; simpl.
  - rewrite app_nil_r. rewrite <- (set_section_id s opts d Hs) at 1.
    f_equal. destruct opts as [b names m]. simpl. by destruct b.
  - rewrite (AddOption_present s k _ d opts Hs).
    erewrite IH; [|simpl; apply lookup_insert_eq|].
    + rewrite set_section_twice. f_equal. simpl.
      assert (Opts.exist k opts = false) as ->
        by (apply exist_false, Hnew; by left).
      simpl. destruct (Opts.ordered opts); [|done].
      by rewrite <- app_assoc.
    + intros k' Hk'. simpl. rewrite lookup_insert_ne by (by intros ->).
      apply Hnew. by right.
Qed.

Lemma replay_section_spec r ini d s :
  sections d !! s = None ->
  NoDup (Options r s ini) ->
  replay_section r ini d s =
  {| ordered := ordered d;
     sectionNames := if ordered d then sectionNames d ++ [s] else sectionNames d;
     sections := <[s := read_back r ini (ordered d) s]> (sections d) |}.
Proof.
  intros Hs Hnd. unfold replay_section.
  rewrite (replay_options_spec ini s _ _ (Opts.newOptions (ordered d))); [|..|done|done].
  - rewrite AddSection_spec. unfold set_section, HasSection, read_back.
    rewrite Hs. simpl. rewrite insert_insert_eq, andb_true_r.
    by destruct (ordered d).
  - rewrite AddSection_spec. unfold section_or_new. rewrite Hs. simpl.
    apply lookup_insert_eq.
Qed.

Lemma replay_spec r ini ss d :
  NoDup ss ->
  (forall s, s ∈ ss -> sections d !! s = None) ->
  (forall s, NoDup (Options r s ini)) ->
  replay r ini ss d =
  {| ordered := ordered d;
     sectionNames := if ordered d then sectionNames d ++ ss else sectionNames d;
     sections := foldl (fun m s => <[s := read_back r ini (ordered d) s]> m)
                       (sections d) ss |}.
Proof.
  intros Hnd. revert d. induction Hnd as [|s ss Hs Hnd IH]; intros d Hnew Hopts.
  - simpl. rewrite app_nil_r. destruct d as [b names m]. simpl. by destruct b.
  - simpl. rewrite replay_section_spec by (done || apply Hnew; by left).
    rewrite IH; simpl; [|intros s' Hs'|done].
    + destruct (ordered d); [|done]. by rewrite <- app_assoc.
    + rewrite lookup_insert_ne by (by intros ->). apply Hnew. by right.
Qed.

Lemma read_back_id r ini s opts :
  INI_ok ini -> sections ini !! s = Some opts ->
  read_back r ini (ordered ini) s = opts.
Proof.
  intros [_ Ho] Hs. pose proof (Ho s opts Hs) as Hopts.
  destruct (getOptions_keys r s _ _ Hopts) as [Hnd Hin].
  destruct Hopts as [Hb Hn].
  unfold read_back. rewrite (Options_lookup r s ini opts Hs).
  destruct opts as [b names m]. simpl in *. subst b. f_equal.
  - unfold Opts.getOptions. simpl. destruct (ordered ini); simpl in *; [done|].
    by rewrite Hn.
  - apply map_eq. intros k. rewrite foldl_insert_lookup, lookup_empty.
    destruct (decide _) as [Hk|Hk].
    + apply Hin, elem_of_dom in Hk as [v Hv]. simpl in Hv.
      unfold GetOption, Opts.get, Opts.exist, index. rewrite Hs. simpl.
      by rewrite Hv.
    + symmetry. apply not_elem_of_dom. by rewrite <- (Hin k).
Qed.

Lemma replay_id r ini :
  INI_ok ini -> replay r ini (Sections r ini) (NewINI (ordered ini)) = ini.
Proof.
  intros Hok. destruct (Sections_keys r ini Hok) as [Hnd Hin].
  rewrite replay_spec; [|done|done|].
  2: { intros s. unfold Options, HasSection.
       destruct (sections ini !! s) as [opts|] eqn:Hs; simpl; [|constructor].
       destruct Hok as [_ Ho].
       apply (getOptions_keys r s _ _ (Ho s opts Hs)). }
  destruct ini as [b names m] eqn:Hini. simpl. f_equal.
  - destruct Hok as [Hn _]. unfold Sections. simpl in *.
    destruct b; simpl in *; [done|by rewrite Hn].
  - apply map_eq. intros s. rewrite foldl_insert_lookup, lookup_empty.
    rewrite <- Hini in *.
    assert (sections ini = m) as Hm by (by rewrite Hini).
    assert (ordered ini = b) as Hb by (by rewrite Hini).
    rewrite <- Hm, <- Hb.
    destruct (decide _) as [Hs|Hs].
    + apply Hin, elem_of_dom in Hs as [opts Hs].
      by rewrite Hs, (read_back_id r ini s opts).
    + symmetry. apply not_elem_of_dom. by rewrite <- (Hin s).
Qed.

Lemma round_trip r ini :
  INI_ok ini ->
  texts_ok header_text key_text value_text ini ->
  Read (NewReader (written r ini)) (ordered ini) = (ini, None).
Proof.
  intros Hok Htexts. rewrite parse_written; [by rewrite replay_id|].
  intros s Hs. apply (Sections_keys r ini Hok), elem_of_dom in Hs as [opts Hs].
  destruct (Htexts s opts Hs) as [[Hs1 Hs2]%andb_true_iff Hkv].
  split; [done|]. split; [done|].
  intros k Hk. rewrite (Options_lookup r s ini opts Hs) in Hk.
  destruct Hok as [_ Ho].
  apply (getOptions_keys r s _ _ (Ho s opts Hs)), elem_of_dom in Hk as [v Hv].
  destruct (Hkv k v Hv) as [Hk' Hv'].
  unfold key_text in Hk'. unfold value_text in Hv'.
  rewrite !andb_true_iff, negb_true_iff in Hk'. rewrite !andb_true_iff in Hv'.
  assert ((GetOption s k ini).1 = v) as ->.
  { unfold GetOption, Opts.get, Opts.exist, index. rewrite Hs. simpl.
    by rewrite Hv. }
  tauto.
Qed.

Lemma same_names r r' ini :
  INI_ok ini ->
  Sections r' ini ≡ₚ Sections r ini /\
  (ordered ini = true -> Sections r' ini = Sections r ini) /\
  forall s, Options r' s ini ≡ₚ Options r s ini /\
            (ordered ini = true -> Options r' s ini = Options r s ini).
Proof.
  intros Hok. split; [|split].
  - destruct (Sections_keys r ini Hok) as [Hnd Hin].
    destruct (Sections_keys r' ini Hok) as [Hnd' Hin'].
    apply NoDup_Permutation; [done|done|].
    intros x. by rewrite Hin, Hin'.
  - unfold Sections. by intros ->.
  - intros s. unfold Options, HasSection.
    destruct (sections ini !! s) as [opts|] eqn:Hs; simpl; [|done].
    destruct Hok as [_ Ho]. pose proof (Ho s opts Hs) as Hopts. split.
    + destruct (getOptions_keys r s _ _ Hopts) as [Hnd Hin].
      destruct (getOptions_keys r' s _ _ Hopts) as [Hnd' Hin'].
      apply NoDup_Permutation; [done|done|].
      intros x. by rewrite Hin, Hin'.
    + destruct Hopts as [Hb _]. unfold Opts.getOptions. rewrite Hb.
      by intros ->.
Qed.

(** C1, amended: a document made by [AddSection] and [AddOption] calls
    whose section names, option names and values are plain and neither
    start nor end with white space, whose option names are not empty and
    do not start with [;] or [#], and whose values are not empty, is read
    back from what [Write] prints without error and as the same document:
    [Sections] and [Options] list the same names, in the same order in
    ordered mode, and [GetOption] returns the same values. *)
Theorem C1_round_trip cs b r r' ini :
  forallb is_add cs = true ->
  do_calls cs (NewINI b) = Some ini ->
  texts_ok header_text key_text value_text ini ->
  exists ini',
    Read (NewReader (written r ini)) b = (ini', None) /\
    ini' = ini /\
    Sections r' ini' ≡ₚ Sections r ini /\
    (b = true -> Sections r' ini' = Sections r ini) /\
    forall s,
      Options r' s ini' ≡ₚ Options r s ini /\
      (b = true -> Options r' s ini' = Options r s ini) /\
      forall k, GetOption s k ini' = GetOption s k ini.
Proof.
  intros _ Hcs Htexts.
  destruct (do_calls_ok cs (NewINI b) (NewINI_ok b)) as (ini0 & Hcs0 & Hb & Hok).
  rewrite Hcs in Hcs0. injection Hcs0 as <-. simpl in Hb. subst b.
  exists ini. split; [by apply round_trip|]. split; [done|].
  destruct (same_names r r' ini Hok) as (H1 & H2 & H3).
  split; [done|]. split; [done|].
  intros s. destruct (H3 s). by repeat split.
Qed.

Lemma C1_round_trip_witness :
  forallb is_add ex_calls = true /\
  do_calls ex_calls (NewINI true) = Some (ex_round true) /\
  texts_ok header_text key_text value_text (ex_round true) /\
  Read (NewReader (written key_order (ex_round true))) true =
  (ex_round true, None) /\
  Sections key_order (ex_round true) = ["server"; "empty"; ""] /\
  Options key_order "server" (ex_round true) = ["host"; "port"].
Proof.
  assert (forallb is_add ex_calls = true) as H1 by reflexivity.
  assert (do_calls ex_calls (NewINI true) = Some (ex_round true)) as H2
    by (vm_compute; reflexivity).
  assert (texts_ok header_text key_text value_text (ex_round true)) as H3
    by (apply (bool_decide_unpack _); vm_compute; reflexivity).
  split; [exact H1|]. split; [exact H2|]. split; [exact H3|].
  destruct (C1_round_trip ex_calls true key_order key_order (ex_round true)
              H1 H2 H3) as (ini' & Hread & -> & _).
  split; [exact Hread|]. split; vm_compute; reflexivity.
Defined.

(** C1 fails without these conditions: a section name that starts with a
    space comes back without it; an option whose name starts with [;] is printed as a
    comment and is lost; an option with the empty name is printed as a
    line that is a syntax error. *)
Lemma C1_round_trip_counterexample :
  (forallb is_add [CallAddSection " a"] = true /\
   do_calls [CallAddSection " a"] (NewINI true) = Some ex_spaced /\
   texts_ok stated_text stated_text stated_text ex_spaced /\
   Sections key_order (Read (NewReader (written key_order ex_spaced)) true).1
   ≠ Sections key_order ex_spaced) /\
  (forallb is_add [CallAddOption "s" ";k" "v"] = true /\
   do_calls [CallAddOption "s" ";k" "v"] (NewINI true) = Some ex_semicolon /\
   texts_ok stated_text stated_text stated_text ex_semicolon /\
   Options key_order "s" (Read (NewReader (written key_order ex_semicolon)) true).1
   ≠ Options key_order "s" ex_semicolon) /\
  (forallb is_add [CallAddOption "s" "" "v"] = true /\
   do_calls [CallAddOption "s" "" "v"] (NewINI true) = Some ex_unnamed /\
   texts_ok plain plain stated_text ex_unnamed /\
   (Read (NewReader (written key_order ex_unnamed)) true).2 =
   Some (syntax_error {| Line := 2; Source := "= v" |})).
Proof.
  split; [|split].
  - split; [reflexivity|]. split; [reflexivity|].
    split; [apply (bool_decide_unpack _); vm_compute; reflexivity|].
    vm_compute. intros [=].
  - split; [reflexivity|]. split; [reflexivity|].
    split; [apply (bool_decide_unpack _); vm_compute; reflexivity|].
    vm_compute. intros [=].
  - split; [reflexivity|]. split; [reflexivity|].
    split; [apply (bool_decide_unpack _); vm_compute; reflexivity|].
    vm_compute. reflexivity.
Qed.

(** ** Failing readers and writers *)

Lemma parse_line_Return read section lineNum ini ini' err :
  parse_line read section lineNum ini = Return ini' err ->
  exists e, err = Some (syntax_error e).
Proof.
  destruct read as [line rerr]. unfold parse_line.
  destruct (Text.is_empty _); [done|].
  destruct (_ || _); [done|].
  destruct (assignRegex _) as [[key val]|]; [done|].
  destruct (sectionRegex _) as [name|]; [done|].
  intros [= <- <-]. by eexists.
Qed.

Lemma parse_loop_error reader section lineNum ini :
  (parse_loop reader section lineNum ini).2 = None \/
  exists e, (parse_loop reader section lineNum ini).2 = Some (syntax_error e).
Proof.
  revert section lineNum ini.
  induction reader as [|read reader IH]; intros section lineNum ini.
  - by left.
  - simpl.
    destruct (parse_line read section lineNum ini)
      as [ini' err|[] section' lineNum' ini'] eqn:Hline.
    + right. by apply parse_line_Return in Hline as [e ->]; eexists.
    + by left.
    + apply IH.
Qed.

(** C3 fails on the code: [parse] returns no error but [nil] and
    [ErrSyntax], so an error of the reader other than [io.EOF] is dropped
    and the lines after it are still read; [Write] returns [nil] whatever
    the writer returns, and goes on writing to a writer that fails.  The
    errors of [os.Open] and [os.Create] are returned by [ReadFile] and
    [WriteFile]. *)
Theorem C3_io_errors_not_surfaced :
  (forall reader ini msg, (parse reader ini).2 ≠ Some (io_error msg)) /\
  parse ex_failing_reader (NewINI true) =
    ((AddOption "a" "k" "v" (NewINI true)).2, None) /\
  (forall W (H : Writer W) r ini (w : W), (Write r ini w).2 = None) /\
  Write key_order ex_doc {| calls := 0 |} = ({| calls := 5 |}, None) /\
  (forall err path b, ReadFile (fun _ => inl err) path b = (None, Some err)) /\
  (forall err path r ini,
     WriteFile (W := Buffer) (fun _ => inl err) r ini path = (None, Some err)).
Proof.
  split; [|split; [|split; [|split; [|split]]]].
  - intros reader ini msg. unfold parse.
    destruct (parse_loop_error reader "" 0 ini) as [->|[e ->]]; done.
  - vm_compute. reflexivity.
  - done.
  - vm_compute. reflexivity.
  - done.
  - done.
Qed.

(** * Further properties of the package *)

(** ** What the queries return after each call *)

Lemma HasOption_lookup s k ini :
  HasOption s k ini =
  match sections ini !! s with
  | Some opts => Opts.exist k opts
  | None => false
  end.
Proof. unfold HasOption, HasSection. by destruct (sections ini !! s). Qed.

Lemma GetOption_HasOption s k ini : (GetOption s k ini).2 = HasOption s k ini.
Proof.
  rewrite HasOption_lookup. unfold GetOption, Opts.get.
  destruct (sections ini !! s) as [opts|]; [|done].
  by destruct (Opts.exist k opts).
Qed.

(** X1: [AddOption] returns [true] also when the option is there; after
    it [GetOption] finds the new value under the names of the call and
    what it found before under all others, and the section of the call is
    there. *)
Theorem X1_AddOption_lookup s k v ini s' k' :
  (AddOption s k v ini).1 = true /\
  GetOption s' k' (AddOption s k v ini).2 =
    (if decide (s' = s /\ k' = k) then (v, true) else GetOption s' k' ini) /\
  HasSection s' (AddOption s k v ini).2 =
    (if decide (s' = s) then true else HasSection s' ini).
Proof.
  rewrite AddOption_spec. simpl. split; [done|].
  unfold GetOption, HasSection. simpl.
  destruct (decide (s' = s)) as [->|Hs].
  - rewrite lookup_insert_eq. split; [|done].
    destruct (decide (k' = k)) as [->|Hk].
    + rewrite decide_True by done. apply get_add.
    + rewrite decide_False by (by intros [_ ?]).
      unfold section_or_new, Opts.get, Opts.exist, index. simpl.
      rewrite lookup_insert_ne by done.
      destruct (sections ini !! s) as [opts|]; simpl; [done|].
      by rewrite lookup_empty.
  - rewrite lookup_insert_ne by done.
    by rewrite decide_False by (by intros [? _]).
Qed.

(** X2: [AddSection] returns [true] exactly when the section was not
    there; a section that is there is left as it is, with its options, and
    no option is found or lost by the call. *)
Theorem X2_AddSection_lookup r s ini s' k' :
  (AddSection s ini).1 = negb (HasSection s ini) /\
  (if HasSection s ini then (AddSection s ini).2 = ini
   else Options r s (AddSection s ini).2 = []) /\
  HasSection s' (AddSection s ini).2 =
    (if decide (s' = s) then true else HasSection s' ini) /\
  GetOption s' k' (AddSection s ini).2 = GetOption s' k' ini.
Proof.
  split; [by rewrite AddSection_spec|]. split; [|split].
  - unfold AddSection. destruct (HasSection s ini) eqn:Hs; simpl; [done|].
    unfold Options, HasSection. simpl. rewrite lookup_insert_eq. simpl.
    unfold Opts.getOptions. simpl. destruct (ordered ini); simpl; [done|].
    apply Permutation_nil_r. rewrite range_options_perm.
    by rewrite map_to_list_empty.
  - rewrite AddSection_spec. unfold HasSection. simpl.
    destruct (decide (s' = s)) as [->|Hs].
    + by rewrite lookup_insert_eq.
    + by rewrite lookup_insert_ne.
  - rewrite AddSection_spec. unfold GetOption. simpl.
    destruct (decide (s' = s)) as [->|Hs].
    + rewrite lookup_insert_eq. unfold section_or_new.
      destruct (sections ini !! s); simpl; [done|].
      unfold Opts.get, Opts.exist. simpl. by rewrite lookup_empty.
    + by rewrite lookup_insert_ne.
Qed.

Lemma remove_result k opts r opts' :
  Opts.remove k opts = Some (r, opts') ->
  r = Opts.exist k opts /\
  Opts.options opts' = delete k (Opts.options opts).
Proof.
  unfold Opts.remove. destruct (Opts.exist k opts) eqn:He; simpl.
  - destruct (Opts.ordered opts).
    + destruct (slice_delete _ _); simpl; [|done]. by intros [= <- <-].
    + by intros [= <- <-].
  - intros [= <- <-]. split; [done|].
    symmetry. apply delete_id. by apply exist_false.
Qed.

(** X3: a [RemoveOption] that does not panic returns whether the option
    was there; afterwards [GetOption] finds nothing under the names of
    the call and what it found before under all others, and every
    section is still there, also one that has lost its last option. *)
Theorem X3_RemoveOption_lookup s k ini r ini' s' k' :
  RemoveOption s k ini = Some (r, ini') ->
  r = HasOption s k ini /\
  GetOption s' k' ini' =
    (if decide (s' = s /\ k' = k) then ("", false) else GetOption s' k' ini) /\
  HasSection s' ini' = HasSection s' ini.
Proof.
  rewrite HasOption_lookup. unfold RemoveOption, HasSection at 1.
  destruct (sections ini !! s) as [opts|] eqn:Hs; simpl.
  - destruct (Opts.remove k opts) as [[r0 opts']|] eqn:Hr; simpl; [|done].
    intros [= <- <-]. apply remove_result in Hr as [-> Hopts'].
    split; [done|]. unfold GetOption, HasSection. simpl.
    destruct (decide (s' = s)) as [->|Hne].
    + rewrite lookup_insert_eq, Hs. split; [|done].
      unfold Opts.get, Opts.exist, index. rewrite Hopts'.
      destruct (decide (k' = k)) as [->|Hk].
      * rewrite decide_True by done. by rewrite lookup_delete_eq.
      * rewrite decide_False by (by intros [_ ?]).
        by rewrite lookup_delete_ne.
    + rewrite lookup_insert_ne by done.
      by rewrite decide_False by (by intros [? _]).
  - intros [= <- <-]. split; [done|]. split; [|done].
    destruct (decide (s' = s /\ k' = k)) as [[-> ->]|]; [|done].
    unfold GetOption. by rewrite Hs.
Qed.

Lemma X3_RemoveOption_lookup_witness :
  RemoveOption "s" "k" ex_doc = Some (true, ex_doc_removed) /\
  GetOption "s" "k" ex_doc_removed = ("", false) /\
  HasSection "s" ex_doc_removed = true.
Proof.
  assert (RemoveOption "s" "k" ex_doc = Some (true, ex_doc_removed)) as H
    by (vm_compute; reflexivity).
  split; [exact H|].
  destruct (X3_RemoveOption_lookup "s" "k" ex_doc true ex_doc_removed "s" "k" H)
    as (_ & Hget & Hhas).
  split; [exact Hget|]. rewrite Hhas. reflexivity.
Defined.

(** X4: a [RemoveSection] that does not panic returns whether the section
    was there; afterwards the section and all its options are gone, and
    the other sections and their options are as before. *)
Theorem X4_RemoveSection_lookup s ini r ini' s' k' :
  RemoveSection s ini = Some (r, ini') ->
  r = HasSection s ini /\
  HasSection s' ini' = (if decide (s' = s) then false else HasSection s' ini) /\
  GetOption s' k' ini' =
    (if decide (s' = s) then ("", false) else GetOption s' k' ini).
Proof.
  unfold RemoveSection. destruct (HasSection s ini) eqn:He; simpl.
  - assert (sections ini' = delete s (sections ini) ->
            HasSection s' ini' =
              (if decide (s' = s) then false else HasSection s' ini) /\
            GetOption s' k' ini' =
              (if decide (s' = s) then ("", false) else GetOption s' k' ini))
      as Hdel.
    { intros Hd. unfold HasSection, GetOption. rewrite Hd.
      destruct (decide (s' = s)) as [->|Hne].
      - by rewrite lookup_delete_eq.
      - by rewrite lookup_delete_ne. }
    destruct (ordered ini).
    + destruct (slice_delete _ _); simpl; [|done].
      intros [= <- <-]. split; [done|]. by apply Hdel.
    + intros [= <- <-]. split; [done|]. by apply Hdel.
  - intros [= <- <-]. split; [done|].
    apply HasSection_false in He. unfold HasSection, GetOption.
    destruct (decide (s' = s)) as [->|Hne]; [|done]. by rewrite He.
Qed.

Lemma X4_RemoveSection_lookup_witness :
  RemoveSection "t" ex_doc =
    Some (true, (AddOption "s" "k" "v" (NewINI true)).2) /\
  HasSection "t" (AddOption "s" "k" "v" (NewINI true)).2 = false /\
  GetOption "s" "k" (AddOption "s" "k" "v" (NewINI true)).2 = ("v", true).
Proof.
  assert (RemoveSection "t" ex_doc =
            Some (true, (AddOption "s" "k" "v" (NewINI true)).2)) as H
    by (vm_compute; reflexivity).
  split; [exact H|].
  destruct (X4_RemoveSection_lookup "t" ex_doc true _ "t" "k" H) as (_ & Hhas & _).
  destruct (X4_RemoveSection_lookup "t" ex_doc true _ "s" "k" H) as (_ & _ & Hget).
  split; [exact Hhas|]. rewrite Hget. reflexivity.
Defined.

(** ** The lists against the queries *)

(** X5: after any calls on a new document, in either mode and whatever
    the order of the run time, [Sections] lists each section that
    [HasSection] finds once and no other name, and [Options] does the
    same for the options that [HasOption] and [GetOption] find; for a
    section that is not there [Options] is empty. *)
Theorem X5_lists_and_queries cs b r :
  exists ini,
    do_calls cs (NewINI b) = Some ini /\
    NoDup (Sections r ini) /\
    (forall s, s ∈ Sections r ini <-> HasSection s ini = true) /\
    forall s,
      NoDup (Options r s ini) /\
      (forall k, k ∈ Options r s ini <-> HasOption s k ini = true) /\
      (forall k, k ∈ Options r s ini <-> (GetOption s k ini).2 = true) /\
      (HasSection s ini = false -> Options r s ini = []).
Proof.
  destruct (do_calls_ok cs (NewINI b) (NewINI_ok b)) as (ini & Hcs & _ & Hok).
  exists ini. split; [done|].
  destruct (Sections_keys r ini Hok) as [Hnd Hin].
  split; [done|]. split; [by intros s; rewrite Hin, HasSection_dom|].
  intros s.
  assert (NoDup (Options r s ini) /\
          forall k, k ∈ Options r s ini <-> HasOption s k ini = true) as [Hnd' Hin'].
  { unfold Options, HasSection.
    destruct (sections ini !! s) as [opts|] eqn:Hs; simpl.
    - destruct Hok as [_ Ho].
      destruct (getOptions_keys r s _ _ (Ho s opts Hs)) as [H1 H2].
      split; [done|]. intros k. rewrite HasOption_lookup, Hs, H2.
      by rewrite exist_dom.
    - split; [constructor|]. intros k. rewrite HasOption_lookup, Hs.
      split; [by intros ?%elem_of_nil|done]. }
  split; [done|]. split; [done|]. split.
  - intros k. by rewrite GetOption_HasOption.
  - unfold Options. by intros ->.
Qed.

(** ** The assignment pattern *)

Lemma cut_Some c s l r :
  Text.cut c s = Some (l, r) ->
  s = l +:+ String c r /\ Text.contains c l = false.
Proof.
  revert l. induction s as [|d s IH]; intros l; simpl; [done|].
  destruct (Ascii.eqb_spec d c) as [->|Hd].
  - by intros [= <- <-].
  - destruct (Text.cut c s) as [[l' r']|]; [|done]. intros [= <- <-].
    destruct (IH l' eq_refl) as [-> Hl]. split; [done|]. simpl.
    by apply Ascii.eqb_neq in Hd as ->.
Qed.

Lemma assignRegex_split line key val :
  assignRegex line = Some (key, val) <->
  line = key +:+ "=" +:+ val /\ key ≠ "" /\
  Text.contains "=" key = false /\ Text.contains LF val = false.
Proof.
  unfold assignRegex. split.
  - destruct (Text.cut "=" line) as [[l r]|] eqn:Hcut; [|done].
    apply cut_Some in Hcut as [-> Hl].
    destruct (Text.is_empty l) eqn:Hl'; [done|].
    destruct (Text.contains LF r) eqn:Hr; [done|]. simpl.
    intros [= <- <-]. by apply is_empty_false in Hl'.
  - intros (-> & Hk%is_empty_false & Hk' & Hv).
    change (key +:+ "=" +:+ val) with (key +:+ String "=" val).
    by rewrite cut_app, Hk, Hv.
Qed.

(** X6: [assignRegex] matches a line exactly when the line has a [=]
    that is not its first byte and no line feed after its first [=]; the
    key is what stands before the first [=] and the value all that
    follows it, further [=] signs too. *)
Theorem X6_assignRegex line key val :
  assignRegex line = Some (key, val) <->
  line = key +:+ "=" +:+ val /\ key ≠ "" /\
  Text.contains "=" key = false /\ Text.contains LF val = false.
Proof. apply assignRegex_split. Qed.

(** ** What [Read] builds *)

Lemma do_calls_app cs cs' ini :
  do_calls (cs ++ cs') ini = ini' ← do_calls cs ini; do_calls cs' ini'.
Proof.
  revert ini. induction cs as [|c cs IH]; intros ini; simpl; [done|].
  destruct (do_call c ini) as [ini1|]; simpl; [apply IH|done].
Qed.

Lemma parse_line_calls read section lineNum ini :
  exists cs,
    forallb is_add cs = true /\
    do_calls cs ini =
    Some match parse_line read section lineNum ini with
         | Return ini' _ | Continue _ _ _ ini' => ini'
         end.
Proof.
  destruct read as [line err]. unfold parse_line.
  destruct (Text.is_empty _); [by exists []|].
  destruct (_ || _); [by exists []|].
  destruct (assignRegex _) as [[key val]|].
  { by exists [CallAddOption section (Text.TrimSpace key) (Text.TrimSpace val)]. }
  destruct (sectionRegex _) as [name|]; [|by exists []].
  by exists [CallAddSection (Text.TrimSpace name)].
Qed.

Lemma parse_loop_calls reader section lineNum ini :
  exists cs,
    forallb is_add cs = true /\
    do_calls cs ini = Some (parse_loop reader section lineNum ini).1.
Proof.
  revert section lineNum ini.
  induction reader as [|read reader IH]; intros section lineNum ini.
  - by exists [].
  - simpl. destruct (parse_line_calls read section lineNum ini) as (cs & Hadd & Hcs).
    destruct (parse_line read section lineNum ini)
      as [ini' err|[] section' lineNum' ini'].
    + by exists cs.
    + by exists cs.
    + destruct (IH section' lineNum' ini') as (cs' & Hadd' & Hcs').
      exists (cs ++ cs'). split; [by rewrite forallb_app, Hadd, Hadd'|].
      by rewrite do_calls_app, Hcs.
Qed.

Lemma Read_calls reader b :
  (exists cs, forallb is_add cs = true /\
              do_calls cs (NewINI b) = Some (Read reader b).1) /\
  ordered (Read reader b).1 = b /\
  INI_ok (Read reader b).1.
Proof.
  destruct (parse_loop_calls reader "" 0 (NewINI b)) as (cs & Hadd & Hcs).
  split; [by exists cs|].
  destruct (do_calls_ok cs (NewINI b) (NewINI_ok b)) as (ini & Hcs' & Hb & Hok).
  unfold Read, parse. rewrite Hcs in Hcs'. injection Hcs' as ->. done.
Qed.

(** X7: whatever the reader returns, and also when [parse] fails, the
    document that [Read] returns is made by [AddSection] and [AddOption]
    calls on a new document of the mode asked for; it has that mode and
    satisfies the invariant of the order lists. *)
Theorem X7_Read_document reader b :
  (exists cs, forallb is_add cs = true /\
              do_calls cs (NewINI b) = Some (Read reader b).1) /\
  ordered (Read reader b).1 = b /\
  INI_ok (Read reader b).1.
Proof. apply Read_calls. Qed.

(** ** White space at the end of a line *)

Lemma trim_app_drop sp1 sp2 sp3 d x :
  sp1 d = true ->
  (forall a, sp2 a d = false) ->
  (forall a b, sp3 a d b = false) ->
  (forall a b, sp3 a b d = false) ->
  Text.trim sp1 sp2 sp3 (x +:+ String d "") =
  if Text.is_empty (Text.trim sp1 sp2 sp3 x) then ""
  else Text.trim sp1 sp2 sp3 x +:+ String d "".
Proof.
  intros H1 H2 H3 H3'.
  assert (forall n x, (String.length x <= n)%nat ->
            Text.trim sp1 sp2 sp3 (x +:+ String d "") =
            if Text.is_empty (Text.trim sp1 sp2 sp3 x) then ""
            else Text.trim sp1 sp2 sp3 x +:+ String d "") as H.
  { clear x. induction n as [|n IH]; intros x Hn.
    - destruct x; [|simpl in Hn; lia]. simpl. by rewrite H1.
    - destruct x as [|c1 [|c2 [|c3 x3]]]; simpl in *.
      + by rewrite H1.
      + destruct (sp1 c1) eqn:E1; [by rewrite H1|]. by rewrite H2.
      + destruct (sp1 c1) eqn:E1.
        { apply (IH (String c2 "")). simpl. lia. }
        destruct (sp2 c1 c2) eqn:E2; [by rewrite H1|]. by rewrite H3'.
      + destruct (sp1 c1) eqn:E1.
        { apply (IH (String c2 (String c3 x3))). simpl. lia. }
        destruct (sp2 c1 c2) eqn:E2.
        { apply (IH (String c3 x3)). simpl. lia. }
        destruct (sp3 c1 c2 c3) eqn:E3; [|done].
        apply (IH x3). lia. }
  by apply (H (String.length x)).
Qed.

Lemma space1_alone d :
  Text.space1 d = true ->
  (forall a, Text.space2 a d = false) /\
  (forall a b, Text.space3 a d b = false) /\
  (forall a b, Text.space3 a b d = false).
Proof.
  destruct d as [[] [] [] [] [] [] [] []]; try discriminate;
    intros _; repeat split; bytes.
Qed.

(** A byte of ASCII white space at the end of a string is trimmed with
    the rest. *)
Lemma TrimSpace_app_space d x :
  Text.space1 d = true ->
  Text.TrimSpace (x +:+ String d "") = Text.TrimSpace x.
Proof.
  intros Hd. destruct (space1_alone d Hd) as (H2 & H3 & H3').
  unfold Text.TrimSpace, Text.TrimLeft.
  rewrite trim_app_drop by done.
  destruct (Text.trim _ _ _ x) as [|c y] eqn:Hx; [done|]. simpl Text.is_empty.
  cbv iota. by rewrite TrimRight_drop.
Qed.

(** ** [parse] sees a line through [TrimSpace] only *)

Lemma parse_line_trim line line' err section lineNum ini :
  Text.TrimSpace line = Text.TrimSpace line' ->
  parse_line (line, err) section lineNum ini =
  parse_line (line', err) section lineNum ini.
Proof. intros H. unfold parse_line. by rewrite H. Qed.

Lemma parse_loop_trim reads reads' section lineNum ini :
  Forall2 (fun a b => Text.TrimSpace a.1 = Text.TrimSpace b.1 /\ a.2 = b.2)
          reads reads' ->
  parse_loop reads section lineNum ini = parse_loop reads' section lineNum ini.
Proof.
  intros H. revert section lineNum ini.
  induction H as [|[l e] [l' e'] reads reads' [Hl He] H IH];
    intros section lineNum ini; [done|].
  simpl in *. subst e'. rewrite (parse_line_trim l l') by done.
  destruct (parse_line (l', e) section lineNum ini) as [|[]]; [done|done|].
  apply IH.
Qed.

Lemma NewReader_crlf content :
  Forall2 (fun a b => Text.TrimSpace a.1 = Text.TrimSpace b.1 /\ a.2 = b.2)
          (NewReader (crlf content)) (NewReader content).
Proof.
  assert (Forall2 (fun a b =>
            a.2 = b.2 /\
            (a.1 = b.1 \/
             exists p, b.1 = p +:+ String LF "" /\
                       a.1 = (p +:+ String CR "") +:+ String LF ""))
          (NewReader (crlf content)) (NewReader content)) as H.
  { induction content as [|c rest IH]; simpl.
    - repeat constructor.
    - destruct (Ascii.eqb c LF) eqn:Hc; simpl.
      + constructor; [|done]. split; [done|]. right. exists "".
        apply Ascii.eqb_eq in Hc as ->. done.
      + rewrite Hc. destruct IH as [|[l e] [l' e'] more more' [He Hl] IH].
        * repeat constructor.
        * constructor; [|done]. simpl in *. split; [done|].
          destruct Hl as [->|(p & -> & ->)]; [by left|].
          right. by exists (String c p). }
  eapply Forall2_impl; [exact H|].
  intros [l e] [l' e'] [He Hl]. simpl in *. split; [|done].
  destruct Hl as [->|(p & -> & ->)]; [done|].
  by rewrite !TrimSpace_app_space.
Qed.

(** X8: a text with carriage returns before its line feeds is read as the
    text without them: same document, same error. *)
Theorem X8_crlf content b :
  Read (NewReader (crlf content)) b = Read (NewReader content) b.
Proof. apply parse_loop_trim, NewReader_crlf. Qed.

Lemma parse_line_err line err section lineNum ini :
  parse_line (line, err) section lineNum ini =
  match parse_line (line, None) section lineNum ini with
  | Return ini' err' => Return ini' err'
  | Continue _ section' lineNum' ini' =>
      Continue (at_EOF err) section' lineNum' ini'
  end.
Proof.
  unfold parse_line.
  destruct (Text.is_empty _); [done|].
  destruct (_ || _); [done|].
  destruct (assignRegex _) as [[key val]|]; [done|].
  by destruct (sectionRegex _).
Qed.

Lemma parse_loop_app pre reads reads' section lineNum ini :
  (forall section lineNum ini,
     parse_loop reads section lineNum ini = parse_loop reads' section lineNum ini) ->
  parse_loop (pre ++ reads) section lineNum ini =
  parse_loop (pre ++ reads') section lineNum ini.
Proof.
  intros H. revert section lineNum ini.
  induction pre as [|read pre IH]; intros section lineNum ini; simpl; [done|].
  destruct (parse_line read section lineNum ini) as [|[]]; [done|done|].
  apply IH.
Qed.

Lemma NewReader_app_LF content :
  exists init last,
    NewReader content =
      ((fun l => (l, None)) <$> init) ++ [(last, Some io_EOF)] /\
    NewReader (content +:+ String LF "") =
      ((fun l => (l, None)) <$> init)
        ++ [(last +:+ String LF "", None); ("", Some io_EOF)].
Proof.
  induction content as [|c rest (init & last & IH & IH')]; simpl.
  - by exists [], "".
  - destruct (Ascii.eqb c LF).
    + exists (String c "" :: init), last. by rewrite IH, IH'.
    + rewrite IH, IH'. destruct init as [|l init]; simpl.
      * by exists [], (String c last).
      * by exists (String c l :: init), last.
Qed.

(** X9: a line feed more or less at the end of the text makes no
    difference to what [Read] returns. *)
Theorem X9_final_line_feed content b :
  Read (NewReader (content +:+ String LF "")) b = Read (NewReader content) b.
Proof.
  destruct (NewReader_app_LF content) as (init & last & -> & ->).
  unfold Read, parse. apply parse_loop_app.
  intros section lineNum ini. simpl.
  rewrite (parse_line_err last (Some io_EOF)).
  rewrite (parse_line_trim (last +:+ String LF "") last)
    by (by apply TrimSpace_app_space).
  destruct (parse_line (last, None) section lineNum ini) as [|[]]; reflexivity.
Qed.

(** ** Blank lines and comments *)

Lemma parse_loop_lineNum reads section lineNum lineNum' ini :
  (parse_loop reads section lineNum ini).1 =
  (parse_loop reads section lineNum' ini).1 /\
  error_source (parse_loop reads section lineNum ini).2 =
  error_source (parse_loop reads section lineNum' ini).2.
Proof.
  revert section lineNum lineNum' ini.
  induction reads as [|[line err] reads IH]; intros section lineNum lineNum' ini.
  - done.
  - simpl. unfold parse_line.
    destruct (Text.is_empty _).
    { destruct (at_EOF err); [done|apply IH]. }
    destruct (_ || _).
    { destruct (at_EOF err); [done|apply IH]. }
    destruct (assignRegex _) as [[key val]|].
    { destruct (at_EOF err); [done|apply IH]. }
    destruct (sectionRegex _) as [name|]; [|done].
    destruct (at_EOF err); [done|apply IH].
Qed.

(** X10: a blank line or a comment may be taken out of what is read, or
    put in: the document that [Read] returns is the same, and it fails or
    not on the same line text; only the line numbers move. *)
Theorem X10_skipped_lines pre line post b :
  is_blank line || is_comment line = true ->
  (Read (pre ++ (line, None) :: post) b).1 = (Read (pre ++ post) b).1 /\
  error_source (Read (pre ++ (line, None) :: post) b).2 =
  error_source (Read (pre ++ post) b).2.
Proof.
  intros Hline. unfold Read, parse.
  generalize (NewINI b) as ini. generalize 0 as lineNum.
  generalize "" as section.
  induction pre as [|read pre IH]; intros section lineNum ini.
  - rewrite !app_nil_l.
    rewrite (parse_loop_read line post section lineNum ini section ini)
      by (by rewrite parse_line_skip).
    apply parse_loop_lineNum.
  - simpl. destruct (parse_line read section lineNum ini) as [|[]];
      [done|done|apply IH].
Qed.

Lemma X10_skipped_lines_witness :
  is_blank "  ; note
" || is_comment "  ; note
" = true /\
  (Read (NewReader "[s]
  ; note
k = v") true).1 = (Read (NewReader "[s]
k = v") true).1.
Proof.
  assert (is_blank "  ; note
" || is_comment "  ; note
" = true) as H by reflexivity.
  split; [exact H|].
  exact (proj1 (X10_skipped_lines [("[s]
", None)] _ [("k = v", Some io_EOF)] true H)).
Defined.

(** ** The two modes hold the same data *)

Lemma unordered_document_ok ini : INI_ok (unordered_document ini).
Proof.
  split; simpl; [done|].
  intros s opts. rewrite lookup_fmap.
  destruct (sections ini !! s); simpl; [|done]. by intros [= <-].
Qed.

Lemma unordered_section_or_new s ini :
  section_or_new s (unordered_document ini) =
  unordered_options (section_or_new s ini).
Proof.
  unfold section_or_new. simpl. rewrite lookup_fmap.
  by destruct (sections ini !! s).
Qed.

Lemma unordered_HasSection s ini :
  HasSection s (unordered_document ini) = HasSection s ini.
Proof.
  unfold HasSection. simpl. rewrite lookup_fmap.
  by destruct (sections ini !! s).
Qed.

Lemma unordered_GetOption s k ini :
  GetOption s k (unordered_document ini) = GetOption s k ini.
Proof.
  unfold GetOption. simpl. rewrite lookup_fmap.
  by destruct (sections ini !! s).
Qed.

Lemma unordered_do_call c ini ini' :
  INI_ok ini -> do_call c ini = Some ini' ->
  do_call c (unordered_document ini) = Some (unordered_document ini').
Proof.
  intros Hok Hc. pose proof (unordered_document_ok ini) as Hok'.
  destruct c as [s|s k v|s|s k]; simpl in *.
  - injection Hc as <-. f_equal. rewrite !AddSection_spec.
    rewrite unordered_section_or_new. unfold unordered_document. simpl.
    by rewrite fmap_insert.
  - injection Hc as <-. f_equal. rewrite !AddOption_spec.
    rewrite unordered_section_or_new. unfold unordered_document. simpl.
    by rewrite fmap_insert.
  - rewrite RemoveSection_spec in Hc by done. injection Hc as <-.
    rewrite RemoveSection_spec by done. simpl. f_equal.
    unfold unordered_document. simpl. by rewrite fmap_delete.
  - rewrite RemoveOption_spec in Hc by done. injection Hc as <-.
    rewrite RemoveOption_spec by done. simpl. f_equal.
    rewrite lookup_fmap. destruct (sections ini !! s) as [opts|]; simpl; [|done].
    unfold unordered_document, set_section. simpl. by rewrite fmap_insert.
Qed.

Lemma unordered_do_calls cs ini ini' :
  INI_ok ini -> do_calls cs ini = Some ini' ->
  do_calls cs (unordered_document ini) = Some (unordered_document ini').
Proof.
  revert ini. induction cs as [|c cs IH]; intros ini Hok; simpl.
  - by intros [= <-].
  - destruct (do_call_ok c ini Hok) as (ini1 & Hc & _ & Hok1).
    rewrite Hc. simpl. intros Hcs.
    rewrite (unordered_do_call c ini ini1) by done. simpl. by apply IH.
Qed.

(** X11: the same calls on a new ordered and on a new unordered document
    give the same sections, options and values: the unordered document is
    the ordered one without its order lists, every query returns the
    same, and the lists have the same names up to their order. *)
Theorem X11_modes_agree cs r r' :
  exists ini ini',
    do_calls cs (NewINI true) = Some ini /\
    do_calls cs (NewINI false) = Some ini' /\
    ini' = unordered_document ini /\
    (forall s, HasSection s ini' = HasSection s ini) /\
    (forall s k, GetOption s k ini' = GetOption s k ini /\
                 HasOption s k ini' = HasOption s k ini) /\
    Sections r' ini' ≡ₚ Sections r ini /\
    forall s, Options r' s ini' ≡ₚ Options r s ini.
Proof.
  destruct (do_calls_ok cs (NewINI true) (NewINI_ok true)) as (ini & Hcs & _ & Hok).
  pose proof (unordered_do_calls cs _ _ (NewINI_ok true) Hcs) as Hcs'.
  assert (unordered_document (NewINI true) = NewINI false) as Hnew
    by (unfold unordered_document; simpl; by rewrite fmap_empty).
  rewrite Hnew in Hcs'.
  pose proof (unordered_document_ok ini) as Hok'.
  exists ini, (unordered_document ini).
  split; [done|]. split; [exact Hcs'|]. split; [done|].
  split; [intros s; apply unordered_HasSection|]. split; [|split].
  - intros s k. split; [apply unordered_GetOption|].
    by rewrite <- !GetOption_HasOption, unordered_GetOption.
  - destruct (Sections_keys r ini Hok) as [Hnd Hin].
    destruct (Sections_keys r' _ Hok') as [Hnd' Hin'].
    apply NoDup_Permutation; [done|done|]. intros s.
    by rewrite Hin, Hin', <- !HasSection_dom, unordered_HasSection.
  - intros s.
    assert (forall r ini, INI_ok ini ->
              NoDup (Options r s ini) /\
              forall k, k ∈ Options r s ini <-> HasOption s k ini = true) as Hlist.
    { clear. intros r ini [_ Ho]. unfold Options, HasSection.
      destruct (sections ini !! s) as [opts|] eqn:Hs; simpl.
      - destruct (getOptions_keys r s _ _ (Ho s opts Hs)) as [H1 H2].
        split; [done|]. intros k. rewrite HasOption_lookup, Hs, H2.
        by rewrite exist_dom.
      - split; [constructor|]. intros k. rewrite HasOption_lookup, Hs.
        split; [by intros ?%elem_of_nil|done]. }
    destruct (Hlist r ini Hok) as [Hnd Hin].
    destruct (Hlist r' _ Hok') as [Hnd' Hin'].
    apply NoDup_Permutation; [done|done|]. intros k.
    by rewrite Hin, Hin', <- !GetOption_HasOption, unordered_GetOption.
Qed.

(** ** More on trimming *)

Lemma trim_idem sp1 sp2 sp3 s :
  Text.trim sp1 sp2 sp3 (Text.trim sp1 sp2 sp3 s) = Text.trim sp1 sp2 sp3 s.
Proof.
  assert (forall n s, (String.length s <= n)%nat ->
            Text.trim sp1 sp2 sp3 (Text.trim sp1 sp2 sp3 s)
            = Text.trim sp1 sp2 sp3 s) as H.
  { clear s. induction n as [|n IH]; intros s Hn.
    - destruct s; [done|simpl in Hn; lia].
    - destruct s as [|c1 [|c2 [|c3 s3]]]; simpl in *.
      + done.
      + destruct (sp1 c1) eqn:E1; [done|]. simpl. by rewrite E1.
      + destruct (sp1 c1) eqn:E1.
        { apply (IH (String c2 "")). simpl. lia. }
        destruct (sp2 c1 c2) eqn:E2; [done|]. simpl. by rewrite E1, E2.
      + destruct (sp1 c1) eqn:E1.
        { apply (IH (String c2 (String c3 s3))). simpl. lia. }
        destruct (sp2 c1 c2) eqn:E2.
        { apply (IH (String c3 s3)). simpl. lia. }
        destruct (sp3 c1 c2 c3) eqn:E3.
        { apply (IH s3). lia. }
        simpl. by rewrite E1, E2, E3. }
  by apply (H (String.length s)).
Qed.

(** A beginning of a string that [trim] leaves alone is left alone. *)
Lemma trim_fixed_prefix sp1 sp2 sp3 p q :
  Text.trim sp1 sp2 sp3 (p +:+ q) = p +:+ q ->
  Text.trim sp1 sp2 sp3 p = p.
Proof.
  intros H. destruct p as [|c1 [|c2 [|c3 p3]]]; [done|..].
  - simpl. by rewrite (trim_fixed1 _ _ _ _ _ H).
  - simpl. by rewrite (trim_fixed1 _ _ _ _ _ H), (trim_fixed2 _ _ _ _ _ _ H).
  - simpl. by rewrite (trim_fixed1 _ _ _ _ _ H), (trim_fixed2 _ _ _ _ _ _ H),
      (trim_fixed3 _ _ _ _ _ _ _ H).
Qed.

(** [trim] does not use up a string whose last one, two and three bytes
    are no run that it drops. *)
Lemma trim_keeps_end sp1 sp2 sp3 t :
  t ≠ "" ->
  (forall p a, t = p +:+ String a "" -> sp1 a = false) ->
  (forall p a b, t = p +:+ String a (String b "") -> sp2 a b = false) ->
  (forall p a b c, t = p +:+ String a (String b (String c "")) ->
                   sp3 a b c = false) ->
  Text.trim sp1 sp2 sp3 t ≠ "".
Proof.
  assert (forall n t, (String.length t <= n)%nat ->
    t ≠ "" ->
    (forall p a, t = p +:+ String a "" -> sp1 a = false) ->
    (forall p a b, t = p +:+ String a (String b "") -> sp2 a b = false) ->
    (forall p a b c, t = p +:+ String a (String b (String c "")) ->
                     sp3 a b c = false) ->
    Text.trim sp1 sp2 sp3 t ≠ "") as H.
  { clear t. induction n as [|n IH]; intros t Hn Hne H1 H2 H3.
    - destruct t; [done|simpl in Hn; lia].
    - destruct t as [|c1 t1]; [done|]. simpl in Hn. simpl.
      destruct (sp1 c1) eqn:E1.
      { destruct t1 as [|c2 t2]; [by rewrite (H1 "" c1) in E1|].
        apply IH; [lia|done|..].
        - intros p a Hp. apply (H1 (String c1 p)). by rewrite ?app_cons, <- Hp.
        - intros p a b Hp. apply (H2 (String c1 p)). by rewrite ?app_cons, <- Hp.
        - intros p a b c Hp. apply (H3 (String c1 p)). by rewrite ?app_cons, <- Hp. }
      destruct t1 as [|c2 t2]; [done|]. simpl in Hn.
      destruct (sp2 c1 c2) eqn:E2.
      { destruct t2 as [|c3 t3]; [by rewrite (H2 "" c1 c2) in E2|].
        apply IH; [lia|done|..].
        - intros p a Hp. apply (H1 (String c1 (String c2 p))). by rewrite ?app_cons, <- Hp.
        - intros p a b Hp. apply (H2 (String c1 (String c2 p))). by rewrite ?app_cons, <- Hp.
        - intros p a b c Hp. apply (H3 (String c1 (String c2 p))). by rewrite ?app_cons, <- Hp. }
      destruct t2 as [|c3 t3]; [done|]. simpl in Hn.
      destruct (sp3 c1 c2 c3) eqn:E3; [|done].
      destruct t3 as [|c4 t4]; [by rewrite (H3 "" c1 c2 c3) in E3|].
      apply IH; [lia|done|..].
      + intros p a Hp. apply (H1 (String c1 (String c2 (String c3 p)))). by rewrite ?app_cons, <- Hp.
      + intros p a b Hp. apply (H2 (String c1 (String c2 (String c3 p)))). by rewrite ?app_cons, <- Hp.
      + intros p a b c Hp.
        apply (H3 (String c1 (String c2 (String c3 p)))). by rewrite ?app_cons, <- Hp. }
  by apply (H (String.length t)).
Qed.

(** What [TrimRight] returns is the beginning of its argument. *)
Lemma TrimRight_prefix s : exists q, s = Text.TrimRight s +:+ q.
Proof.
  unfold Text.TrimRight.
  destruct (trim_suffix Text.space1 (fun c2 c1 => Text.space2 c1 c2)
              (fun c3 c2 c1 => Text.space3 c1 c2 c3) (Text.rev s)) as [p Hp].
  exists (Text.rev p). apply rev_inj. by rewrite rev_app, !rev_rev.
Qed.

Lemma TrimLeft_suffix s : exists p, s = p +:+ Text.TrimLeft s.
Proof. apply trim_suffix. Qed.

Lemma TrimLeft_idem s : Text.TrimLeft (Text.TrimLeft s) = Text.TrimLeft s.
Proof. apply trim_idem. Qed.

Lemma TrimRight_idem s : Text.TrimRight (Text.TrimRight s) = Text.TrimRight s.
Proof. unfold Text.TrimRight. by rewrite rev_rev, trim_idem. Qed.

Lemma TrimLeft_TrimRight x :
  Text.TrimLeft x = x -> Text.TrimLeft (Text.TrimRight x) = Text.TrimRight x.
Proof.
  intros Hx. destruct (TrimRight_prefix x) as [q Hq].
  apply (trim_fixed_prefix _ _ _ _ q). by rewrite <- Hq.
Qed.

(** [TrimSpace] leaves alone what it returns. *)
Lemma TrimSpace_idem s : Text.TrimSpace (Text.TrimSpace s) = Text.TrimSpace s.
Proof.
  unfold Text.TrimSpace.
  rewrite (TrimLeft_TrimRight (Text.TrimLeft s)) by apply TrimLeft_idem.
  apply TrimRight_idem.
Qed.

(** It returns a part of its argument. *)
Lemma TrimSpace_part s : exists p q, s = p +:+ Text.TrimSpace s +:+ q.
Proof.
  destruct (TrimLeft_suffix s) as [p Hp].
  destruct (TrimRight_prefix (Text.TrimLeft s)) as [q Hq].
  exists p, q. unfold Text.TrimSpace. by rewrite <- Hq.
Qed.

Lemma TrimSpace_contains c s :
  Text.contains c s = false -> Text.contains c (Text.TrimSpace s) = false.
Proof.
  destruct (TrimSpace_part s) as (p & q & Hs). rewrite Hs at 1.
  rewrite !contains_app. intros H.
  by destruct (Text.contains c p), (Text.contains c (Text.TrimSpace s)).
Qed.

(** A string that does not start with white space and is not empty is
    not trimmed away from its end, and keeps its first byte. *)
Lemma TrimRight_nonempty k :
  Text.TrimLeft k = k -> k ≠ "" ->
  Text.TrimRight k ≠ "" /\ Text.byte0 (Text.TrimRight k) = Text.byte0 k.
Proof.
  intros Hk Hne.
  assert (Text.TrimRight k ≠ "") as Hr.
  { unfold Text.TrimRight. intros H.
    apply (f_equal Text.rev) in H. rewrite rev_rev in H. simpl in H.
    revert H. apply trim_keeps_end.
    - intros H. apply Hne. apply rev_inj. by rewrite H.
    - intros p a Hp. apply (f_equal Text.rev) in Hp.
      rewrite rev_rev, rev_app in Hp. simpl in Hp. rewrite Hp in Hk.
      apply (trim_fixed1 _ _ _ _ _ Hk).
    - intros p a b Hp. apply (f_equal Text.rev) in Hp.
      rewrite rev_rev, rev_app in Hp. simpl in Hp. rewrite Hp in Hk.
      apply (trim_fixed2 _ _ _ _ _ _ Hk).
    - intros p a b c Hp. apply (f_equal Text.rev) in Hp.
      rewrite rev_rev, rev_app in Hp. simpl in Hp. rewrite Hp in Hk.
      apply (trim_fixed3 _ _ _ _ _ _ _ Hk). }
  split; [done|].
  destruct (TrimRight_prefix k) as [q Hq]. rewrite Hq at 2.
  by destruct (Text.TrimRight k).
Qed.

(** ** The texts that [parse] puts into a document *)

Lemma texts_ok_section_or_new P Q V s ini :
  texts_ok P Q V ini ->
  map_Forall (fun k v => Q k = true /\ V v = true)
             (Opts.options (section_or_new s ini)).
Proof.
  intros H. unfold section_or_new.
  destruct (sections ini !! s) as [opts|] eqn:Hs; simpl.
  - by destruct (H s opts Hs).
  - apply map_Forall_empty.
Qed.

Lemma texts_ok_AddSection P Q V s ini :
  P s = true -> texts_ok P Q V ini -> texts_ok P Q V (AddSection s ini).2.
Proof.
  intros Hs H. rewrite AddSection_spec. unfold texts_ok. simpl.
  apply map_Forall_insert_2; [|done].
  split; [done|]. by apply (texts_ok_section_or_new P).
Qed.

Lemma texts_ok_AddOption P Q V s k v ini :
  P s = true -> Q k = true -> V v = true ->
  texts_ok P Q V ini -> texts_ok P Q V (AddOption s k v ini).2.
Proof.
  intros Hs Hk Hv H. rewrite AddOption_spec. unfold texts_ok. simpl.
  apply map_Forall_insert_2; [|done].
  split; [done|]. simpl.
  apply map_Forall_insert_2; [done|]. by apply (texts_ok_section_or_new P).
Qed.

Lemma NewReader_lines content :
  Forall (fun read => exists p,
            Text.contains LF p = false /\
            (read.1 = p \/ read.1 = p +:+ String LF ""))
         (NewReader content).
Proof.
  induction content as [|c rest IH]; simpl.
  - repeat constructor. exists "". by split; [|left].
  - destruct (Ascii.eqb c LF) eqn:Hc.
    + constructor; [|done]. exists "". split; [done|]. right.
      by apply Ascii.eqb_eq in Hc as ->.
    + destruct IH as [|[l e] more (p & Hp & Hl) IH].
      * repeat constructor. exists (String c ""). simpl. rewrite Hc.
        by split; [|left].
      * constructor; [|done]. exists (String c p). simpl in *. rewrite Hc.
        split; [done|]. destruct Hl as [-> | ->]; [by left|by right].
Qed.

Lemma NewReader_no_LF content :
  Forall (fun read => Text.contains LF (Text.TrimSpace read.1) = false)
         (NewReader content).
Proof.
  eapply Forall_impl; [apply NewReader_lines|].
  intros [l e] (p & Hp & [Hl|Hl]); simpl in *; subst l.
  - by apply TrimSpace_contains.
  - rewrite TrimSpace_app_space by done. by apply TrimSpace_contains.
Qed.

Lemma readable_key_intro line key val :
  Text.TrimSpace line = line ->
  Text.contains LF line = false ->
  comment_start line = false ->
  assignRegex line = Some (key, val) ->
  readable_key (Text.TrimSpace key) = true /\
  readable_value (Text.TrimSpace val) = true.
Proof.
  intros Hline HLF Hcomment (-> & Hne & Heq & Hval)%assignRegex_split.
  rewrite !contains_app in HLF. apply orb_false_iff in HLF as [HkLF _].
  destruct (TrimSpace_fixed _ Hline) as [Hl _].
  assert (Text.TrimLeft key = key) as Hkey
    by apply (trim_fixed_prefix _ _ _ _ _ Hl).
  destruct (TrimRight_nonempty key Hkey Hne) as [Hr Hb].
  assert (Text.TrimSpace key = Text.TrimRight key) as Hk
    by (unfold Text.TrimSpace; by rewrite Hkey).
  unfold readable_key, readable_value, trimmed, nonempty, comment_start.
  rewrite !TrimSpace_idem, !String.eqb_refl.
  rewrite !TrimSpace_contains by done.
  rewrite Hk, Hb. split; [|done].
  apply is_empty_false in Hr. rewrite Hr. simpl.
  unfold comment_start in Hcomment.
  replace (Text.byte0 key) with (Text.byte0 (key +:+ "=" +:+ val))
    by (by destruct key).
  by rewrite Hcomment.
Qed.

Lemma readable_header_intro line name :
  Text.contains LF line = false ->
  assignRegex line = None ->
  sectionRegex line = Some name ->
  readable_header (Text.TrimSpace name) = true.
Proof.
  intros HLF Hassign ->%sectionRegex_Some.
  unfold readable_header, trimmed.
  rewrite TrimSpace_idem, String.eqb_refl.
  assert (Text.contains "=" name = false) as Heq.
  { destruct (Text.contains "=" name) eqn:Hc; [|done]. exfalso.
    unfold assignRegex in Hassign.
    destruct (Text.cut "=" ("[" +:+ name +:+ "]")) as [[l r]|] eqn:Hcut.
    - apply cut_Some in Hcut as [Hcut _]. rewrite Hcut in HLF.
      rewrite contains_app in HLF. simpl in HLF.
      apply orb_false_iff in HLF as [_ HLF].
      assert (Text.is_empty l = false) as Hl.
      { destruct l; [|done]. by rewrite app_empty_l in Hcut. }
      by rewrite Hl, HLF in Hassign.
    - assert (Text.contains "=" ("[" +:+ name +:+ "]") = true) as Hc'
        by (by rewrite !contains_app, Hc, orb_true_r).
      clear -Hcut Hc'. revert Hcut Hc'.
      generalize ("[" +:+ name +:+ "]") as s.
      induction s as [|d s IH]; simpl; [done|].
      destruct (Ascii.eqb d "="); [done|].
      destruct (Text.cut "=" s) as [[]|]; [done|]. intros _. by apply IH. }
  rewrite !contains_app in HLF. apply orb_false_iff in HLF as [_ HLF].
  apply orb_false_iff in HLF as [HLF _].
  by rewrite !TrimSpace_contains.
Qed.

Lemma parse_line_readable line err section lineNum ini :
  Text.contains LF (Text.TrimSpace line) = false ->
  readable_header section = true ->
  texts_ok readable_header readable_key readable_value ini ->
  match parse_line (line, err) section lineNum ini with
  | Return ini' _ => texts_ok readable_header readable_key readable_value ini'
  | Continue _ section' _ ini' =>
      readable_header section' = true /\
      texts_ok readable_header readable_key readable_value ini'
  end.
Proof.
  intros HLF Hsection Hini. unfold parse_line.
  destruct (Text.is_empty _) eqn:Hempty; [done|].
  destruct (_ || _) eqn:Hcomment; [done|].
  destruct (assignRegex _) as [[key val]|] eqn:Hassign.
  - destruct (readable_key_intro _ key val (TrimSpace_idem line) HLF Hcomment
                Hassign) as [Hk Hv].
    split; [done|]. by apply texts_ok_AddOption.
  - destruct (sectionRegex _) as [name|] eqn:Hheader; [|done].
    pose proof (readable_header_intro _ name HLF Hassign Hheader) as Hname.
    split; [done|]. by apply texts_ok_AddSection.
Qed.

Lemma parse_loop_readable reads section lineNum ini :
  Forall (fun read => Text.contains LF (Text.TrimSpace read.1) = false) reads ->
  readable_header section = true ->
  texts_ok readable_header readable_key readable_value ini ->
  texts_ok readable_header readable_key readable_value
           (parse_loop reads section lineNum ini).1.
Proof.
  intros Hreads. revert section lineNum ini.
  induction Hreads as [|[line err] reads Hline Hreads IH];
    intros section lineNum ini Hsection Hini; [done|].
  simpl. pose proof (parse_line_readable line err section lineNum ini
                       Hline Hsection Hini) as H.
  destruct (parse_line (line, err) section lineNum ini) as [|[]];
    [done|by destruct H|].
  destruct H. by apply IH.
Qed.

Lemma Read_readable content b :
  texts_ok readable_header readable_key readable_value
           (Read (NewReader content) b).1.
Proof.
  apply parse_loop_readable; [apply NewReader_no_LF|done|].
  apply map_Forall_empty.
Qed.

(** X12: whatever the text, the section names, option names and values
    of the document that [Read] returns neither start nor end with white
    space and hold no line feed; no name holds a [=], and no option name
    is empty or starts with [;] or [#]. *)
Theorem X12_read_texts content b :
  texts_ok readable_header readable_key readable_value
           (Read (NewReader content) b).1.
Proof. apply Read_readable. Qed.

(** ** The round trip of a document that was read *)

Lemma readable_key_spec k :
  readable_key k = true ->
  Text.contains "=" k = false /\ Text.contains LF k = false /\
  Text.TrimSpace k = k /\ k ≠ "" /\ comment_start k = false.
Proof.
  unfold readable_key, nonempty. rewrite !andb_true_iff, !negb_true_iff.
  intros ((((? & ?) & ?%trimmed_spec) & ?%is_empty_false) & ?). done.
Qed.

Lemma readable_value_spec v :
  readable_value v = true ->
  Text.contains LF v = false /\ Text.TrimSpace v = v.
Proof.
  unfold readable_value. rewrite !andb_true_iff, !negb_true_iff.
  intros (? & ?%trimmed_spec). done.
Qed.

Lemma readable_header_spec s :
  readable_header s = true ->
  Text.contains "=" s = false /\ Text.contains LF s = false /\
  Text.TrimSpace s = s.
Proof.
  unfold readable_header. rewrite !andb_true_iff, !negb_true_iff.
  intros ((? & ?) & ?%trimmed_spec). done.
Qed.

Lemma option_read_back_readable s k v :
  readable_key k = true -> readable_value v = true -> option_read_back s k v.
Proof.
  intros (Hk1 & Hk2 & [Hkl Hkr]%TrimSpace_fixed & Hk3 & Hk4)%readable_key_spec
    (Hv2 & Hvt)%readable_value_spec.
  split; [done|]. split; [done|]. intros lineNum d.
  pose proof (TrimSpace_fixed v Hvt) as [Hvl Hvr].
  assert (exists t, Text.TrimSpace (Sprintln [k; "="; v]) =
                      (k +:+ " ") +:+ String "=" t /\
                    Text.TrimSpace t = v /\ Text.contains LF t = false)
    as (t & Hline & Ht & HtLF).
  { unfold Text.TrimSpace at 1.
    change (Sprintln [k; "="; v])
      with (k +:+ String " " ("= " +:+ v +:+ String LF "")).
    rewrite TrimLeft_fixed_app by done.
    destruct v as [|c v'].
    - exists "". split; [|done].
      replace (k +:+ String " " ("= " +:+ "" +:+ String LF ""))
        with ((((k +:+ " ") +:+ String "=" "") +:+ String " " "")
              +:+ String LF "")
        by (by rewrite !app_assoc').
      rewrite !TrimRight_drop by done.
      by rewrite TrimRight_keep by (done || bytes).
    - exists (" " +:+ String c v'). split; [|by split].
      replace (k +:+ String " " ("= " +:+ String c v' +:+ String LF ""))
        with (((k +:+ " =") +:+ String " " (String c v')) +:+ String LF "")
        by (by rewrite !app_assoc').
      rewrite TrimRight_drop by done.
      rewrite TrimRight_fixed_app by done.
      by rewrite !app_assoc'. }
  unfold parse_line. rewrite Hline.
  assert (Text.is_empty ((k +:+ " ") +:+ String "=" t) = false) as ->
    by (by destruct k).
  assert (Text.byte0 ((k +:+ " ") +:+ String "=" t) = Text.byte0 k) as ->
    by (by destruct k).
  unfold comment_start in Hk4. rewrite Hk4.
  unfold assignRegex.
  rewrite cut_app by (by rewrite contains_app, Hk1).
  assert (Text.is_empty (k +:+ " ") = false) as -> by (by destruct k).
  rewrite HtLF. simpl.
  assert (Text.TrimSpace (k +:+ " ") = k) as ->.
  { unfold Text.TrimSpace.
    change (k +:+ " ") with (k +:+ String " " "").
    rewrite TrimLeft_fixed_app by done. by rewrite TrimRight_drop. }
  by rewrite Ht.
Qed.

Lemma header_read_back_readable s :
  readable_header s = true -> header_read_back s.
Proof.
  intros (Hs1 & Hs2 & Hst)%readable_header_spec.
  split; [done|]. intros section lineNum d.
  assert (Text.TrimSpace (Sprintln ["[" +:+ s +:+ "]"]) = "[" +:+ s +:+ "]") as Hline.
  { unfold Text.TrimSpace.
    change (Sprintln ["[" +:+ s +:+ "]"])
      with (String "[" ((s +:+ "]") +:+ String LF "")).
    unfold Text.TrimLeft. rewrite trim_keep by bytes.
    change (String "[" ((s +:+ "]") +:+ String LF ""))
      with ((String "[" s +:+ String "]" "") +:+ String LF "").
    rewrite TrimRight_drop by done.
    rewrite TrimRight_keep by (done || bytes). done. }
  unfold parse_line. rewrite Hline.
  change (Text.is_empty ("[" +:+ s +:+ "]")) with false.
  change (Text.byte0 ("[" +:+ s +:+ "]")) with "["%char. simpl orb.
  cbv iota.
  unfold assignRegex. rewrite cut_None by (by rewrite !contains_app, Hs1).
  rewrite sectionRegex_bracketed, Hs2, Hst. done.
Qed.

Lemma parse_option_lines_back ini s ks rest lineNum d :
  (forall k, k ∈ ks -> option_read_back s k (GetOption s k ini).1) ->
  exists lineNum',
    parse_loop (NewReader (printed (option_lines ini s ks) +:+ rest)) s lineNum d =
    parse_loop (NewReader rest) s lineNum' (replay_options ini s ks d).
Proof.
  revert lineNum d. induction ks as [|k ks IH]; intros lineNum d Hok.
  - by exists lineNum.
  - destruct (Hok k) as (Hk & Hv & Hline); [by left|].
    destruct (IH (int_wrap (lineNum + 1))
                 (AddOption s k (GetOption s k ini).1 d).2) as [n' Hn'].
    { intros k' Hk'. apply Hok. by right. }
    exists n'. etrans; [|exact Hn']. unfold option_lines. rewrite fmap_cons.
    simpl printed. rewrite app_assoc'.
    change (Sprintln [k; "="; (GetOption s k ini).1])
      with (k +:+ " " +:+ "=" +:+ " " +:+ (GetOption s k ini).1 +:+ String LF "").
    replace ((k +:+ " " +:+ "=" +:+ " " +:+ (GetOption s k ini).1 +:+ String LF "")
             +:+ printed ((fun k0 => [k0; "="; (GetOption s k0 ini).1]) <$> ks)
             +:+ rest)
      with ((k +:+ " = " +:+ (GetOption s k ini).1)
            +:+ String LF (printed (option_lines ini s ks) +:+ rest))
      by (by rewrite !app_assoc').
    rewrite NewReader_line by (by rewrite !contains_app, Hk, Hv).
    apply parse_loop_read.
    rewrite <- (Hline lineNum d).
    f_equal. f_equal. by rewrite !app_assoc'.
Qed.

Lemma parse_doc_lines_back r ini ss rest section lineNum d :
  (forall s, s ∈ ss ->
     header_read_back s /\
     forall k, k ∈ Options r s ini -> option_read_back s k (GetOption s k ini).1) ->
  exists section' lineNum',
    parse_loop (NewReader (printed (concat (section_lines r ini <$> ss)) +:+ rest))
               section lineNum d =
    parse_loop (NewReader rest) section' lineNum' (replay r ini ss d).
Proof.
  revert section lineNum d.
  induction ss as [|s ss IH]; intros section lineNum d Hok.
  - by exists section, lineNum.
  - destruct (Hok s) as ((Hs & Hline) & Hks); [by left|].
    set (more := printed (concat (section_lines r ini <$> ss)) +:+ rest).
    destruct (parse_option_lines_back ini s (Options r s ini) (String LF more)
                (int_wrap (lineNum + 1)) (AddSection s d).2 Hks) as [n1 Hn1].
    destruct (IH s (int_wrap (n1 + 1)) (replay_section r ini d s))
      as (section' & n' & Hn').
    { intros s' Hs'. apply Hok. by right. }
    exists section', n'. etrans; [|exact Hn'].
    rewrite fmap_cons, concat_cons, printed_app, app_assoc'.
    fold more. rewrite printed_section.
    rewrite NewReader_line by (by rewrite !contains_app, Hs).
    rewrite (parse_loop_read _ _ _ _ _ s (AddSection s d).2) by apply Hline.
    rewrite Hn1.
    change (String LF more) with ("" +:+ String LF more).
    rewrite NewReader_line by done.
    by rewrite (parse_loop_read _ _ _ _ _ s (replay_section r ini d s)).
Qed.

Lemma round_trip_readable r ini :
  INI_ok ini ->
  texts_ok readable_header readable_key readable_value ini ->
  Read (NewReader (written r ini)) (ordered ini) = (ini, None).
Proof.
  intros Hok Htexts. unfold Read, parse. rewrite written_printed. unfold doc_lines.
  destruct (parse_doc_lines_back r ini (Sections r ini) "" "" 0
              (NewINI (ordered ini))) as (section' & n' & Hn').
  { intros s Hs.
    apply (Sections_keys r ini Hok), elem_of_dom in Hs as [opts Hs].
    destruct (Htexts s opts Hs) as [Hs1 Hkv].
    split; [by apply header_read_back_readable|].
    intros k Hk. rewrite (Options_lookup r s ini opts Hs) in Hk.
    destruct Hok as [_ Ho].
    apply (getOptions_keys r s _ _ (Ho s opts Hs)), elem_of_dom in Hk as [v Hv].
    destruct (Hkv k v Hv) as [Hk' Hv'].
    assert ((GetOption s k ini).1 = v) as ->.
    { unfold GetOption, Opts.get, Opts.exist, index. rewrite Hs. simpl.
      by rewrite Hv. }
    by apply option_read_back_readable. }
  rewrite app_empty_r in Hn'. rewrite Hn'. simpl. by rewrite replay_id.
Qed.

(** X13: the documents that [Read] reads back from what [Write] prints,
    without error and as the same document, are exactly those that
    satisfy the invariant of the order lists and whose names and values
    hold no line feed and neither start nor end with white space, whose
    names hold no [=], and whose option names are not empty and do not
    start with [;] or [#]: brackets in names, [=] in values and empty
    values are read back too. *)
Theorem X13_round_trip_exact r ini b :
  Read (NewReader (written r ini)) b = (ini, None) <->
  INI_ok ini /\ ordered ini = b /\
  texts_ok readable_header readable_key readable_value ini.
Proof.
  split.
  - intros H.
    destruct (Read_calls (NewReader (written r ini)) b) as (_ & Hb & Hok).
    pose proof (Read_readable (written r ini) b) as Htexts.
    rewrite H in Hb, Hok, Htexts. done.
  - intros (Hok & <- & Htexts). by apply round_trip_readable.
Qed.

Lemma X13_round_trip_exact_witness :
  texts_ok readable_header readable_key readable_value ex_bracket /\
  Read (NewReader (written key_order ex_bracket)) true = (ex_bracket, None).
Proof.
  assert (do_calls ex_bracket_calls (NewINI true) = Some ex_bracket) as H0
    by (vm_compute; reflexivity).
  assert (INI_ok ex_bracket) as H1.
  { destruct (do_calls_ok ex_bracket_calls (NewINI true) (NewINI_ok true))
      as (ini & Hcs & _ & Hok).
    rewrite H0 in Hcs. by injection Hcs as <-. }
  assert (texts_ok readable_header readable_key readable_value ex_bracket) as H2
    by (apply (bool_decide_unpack _); vm_compute; reflexivity).
  split; [exact H2|].
  exact (proj2 (X13_round_trip_exact key_order ex_bracket true)
               (conj H1 (conj eq_refl H2))).
Defined.

(** X14: what [Read] returns for a text, a text with a syntax error too,
    is printed by [Write] as a text that [Read] reads without error as
    the same document. *)
Theorem X14_read_write_read content b r :
  Read (NewReader (written r (Read (NewReader content) b).1)) b =
  ((Read (NewReader content) b).1, None).
Proof.
  destruct (Read_calls (NewReader content) b) as (_ & Hb & Hok).
  rewrite <- Hb at 2. apply round_trip_readable; [done|].
  apply Read_readable.
Qed.

(** ** The section pattern *)

(** X15: [sectionRegex] matches a line exactly when the line starts with
    [[], ends with []] after it, and holds no line feed in between; the
    name is all that stands between the two, brackets too. *)
Theorem X15_sectionRegex line name :
  sectionRegex line = Some name <->
  line = "[" +:+ name +:+ "]" /\ Text.contains LF name = false.
Proof.
  split.
  - intros H. pose proof (sectionRegex_Some _ _ H) as ->. split; [done|].
    rewrite sectionRegex_bracketed in H.
    by destruct (Text.contains LF name).
  - intros [-> H]. by rewrite sectionRegex_bracketed, H.
Qed.

(** ** The text that [Write] prints *)

(** X16: in ordered mode the text that [Write] prints after any calls
    does not depend on the order in which Go iterates over the maps. *)
Theorem X16_written_ordered cs r r' :
  exists ini,
    do_calls cs (NewINI true) = Some ini /\
    written r ini = written r' ini.
Proof.
  destruct (do_calls_ok cs (NewINI true) (NewINI_ok true))
    as (ini & Hcs & Hb & Hok).
  exists ini. split; [done|]. simpl in Hb.
  destruct (same_names r' r ini Hok) as (_ & HS & HO).
  rewrite !written_printed. unfold doc_lines. rewrite (HS Hb).
  f_equal. f_equal. apply list_fmap_ext. intros _ s _.
  unfold section_lines. destruct (HO s) as [_ HOs]. by rewrite (HOs Hb).
Qed.

(** ** The message of a syntax error *)

Lemma string_of_uint_no_colon d :
  Text.contains ":" (NilEmpty.string_of_uint d) = false.
Proof. induction d; simpl; done. Qed.

Lemma string_of_int_no_colon d :
  Text.contains ":" (NilZero.string_of_int d) = false.
Proof.
  destruct d as [d|d]; simpl; destruct d; try done;
    apply (string_of_uint_no_colon (_ d)).
Qed.

Lemma to_int_nonnil z :
  Z.to_int z ≠ Decimal.Pos Decimal.Nil /\ Z.to_int z ≠ Decimal.Neg Decimal.Nil.
Proof.
  destruct z as [|p|p]; simpl; split; try done;
    intros [= H]; by apply Unsigned.to_uint_nonnil in H.
Qed.

(** X17: the message of a syntax error gives its line and its source:
    two errors with the same message are the same error. *)
Theorem X17_Error_inj e e' : Error e = Error e' -> e = e'.
Proof.
  destruct e as [l src], e' as [l' src']. unfold Error. simpl.
  intros H. apply (inj (String.append _)) in H.
  assert (Text.cut ":" (NilZero.string_of_int (Z.to_int l) +:+ ": " +:+ src) =
          Text.cut ":" (NilZero.string_of_int (Z.to_int l') +:+ ": " +:+ src'))
    as Hcut by (by rewrite H).
  change (": " +:+ src) with (String ":" (" " +:+ src)) in Hcut.
  change (": " +:+ src') with (String ":" (" " +:+ src')) in Hcut.
  rewrite !cut_app in Hcut by apply string_of_int_no_colon.
  injection Hcut as Hl Hsrc.
  f_equal; [|done].
  apply DecimalZ.to_int_inj.
  destruct (to_int_nonnil l), (to_int_nonnil l').
  assert (Some (Z.to_int l) = Some (Z.to_int l')) as [= ->]; [|done].
  rewrite <- (NilZero.isi (Z.to_int l)), <- (NilZero.isi (Z.to_int l')) by done.
  by rewrite Hl.
Qed.

Lemma X17_Error_inj_witness :
  Error {| Line := 3; Source := "[a" |} = "invalid INI syntax on line 3: [a" /\
  {| Line := 3; Source := "[a" |} = {| Line := 3; Source := "[a" |}.
Proof.
  split; [reflexivity|].
  exact (X17_Error_inj {| Line := 3; Source := "[a" |}
                       {| Line := 3; Source := "[a" |} eq_refl).
Defined.
